(** * gwpy.detector.channel: the LIGO data-channel record and its name parser

    A shallow embedding of [gwpy/detector/channel.py]: the function
    [parse_channel_name] and the class [Channel] with its properties, its
    constructor and [fetch].

    - The module is Python 2 code: a [str] is a byte string, so the patterns
      [[A-Z]] and [\d] range over ASCII only, and [str.lower] folds the ASCII
      letters.
    - Python objects are mutable and shared, so every function of the module
      is embedded in a state-and-exception monad over a heap of objects; an
      object is its attribute dictionary, and an exception keeps what was
      written before it.
    - The values are [None], integers, floats, strings, classes, the units
      and quantities of [astropy.units], and references to [Channel]
      instances.  What [astropy], the builtin [float] and [gwpy.io.nds] do is
      left open: they are the fields of the classes [Astropy] and [Nds].
    - [Channel.query], which only forwards to [gwpy.io.cis], is not
      embedded. *)

From Stdlib Require Import ZArith Ascii String DecimalString.
From stdpp Require Import gmap strings list fin_maps relations.

Local Open Scope string_scope.
Local Open Scope Z_scope.

(** ** Python values *)

(** Objects that come from outside the module: Python floats and the objects
    of [astropy.units]. *)
Class Foreign := {
  float : Type;
  Unit : Type;
}.

Abbreviation loc := positive.

Inductive value `{Foreign} : Type :=
| VNone
| VInt (z : Z)
| VFloat (x : float)
| VStr (s : string)
| VType (t : string)               (* a class: an instance of [type] *)
| VUnit (u : Unit)                 (* an instance of [astropy.units.Unit] *)
| VQuantity (x : float) (u : Unit) (* an [astropy.units.Quantity] *)
| VRef (l : loc).                  (* a [Channel] instance *)

Inductive exn : Type :=
| TypeError
| ValueError
| AttributeError
| KeyError
| IndexError
| ForeignError (code : nat).

Inductive result (A : Type) : Type :=
| Ok (a : A)
| Raise (e : exn).
Arguments Ok {A} a.
Arguments Raise {A} e.

(** What the module calls but does not define. *)
Class Astropy `{Foreign} := {
  Hertz : Unit;
  (* the builtin [float(x)] *)
  float_ : value → result float;
  (* [aunits.Unit(u)] *)
  Unit_ : value → result Unit;
  (* truth values of foreign objects *)
  float_truth : float → bool;
  unit_truth : Unit → bool;
  quantity_truth : float → Unit → bool;
  (* [str(x)] of floats, classes, units and quantities *)
  foreign_str : value → string;
}.

(** The module [gwpy.io.nds], imported by [Channel.fetch]. *)
Class Nds `{Foreign} := {
  connection : Type;
  (* the dictionary [nds.DEFAULT_HOSTS], as its lookup function *)
  DEFAULT_HOSTS : value → option (value * value);
  (* [nds.NDSConnection(host, port)] *)
  NDSConnection : value → value → result connection;
  (* [connection.fetch(start, end, name)] *)
  connection_fetch : connection → value → value → value → result value;
}.

(** ** Strings *)

Definition in_range (lo hi : N) (c : ascii) : bool :=
  ((lo <=? N_of_ascii c) && (N_of_ascii c <=? hi))%N.

(** One atom of a pattern; each matches exactly one character. *)
Inductive cclass : Type :=
| CRange (lo hi : ascii)   (* [[a-b]] *)
| CDigit                   (* [\d] *)
| CLit (c : ascii)         (* a literal character *)
| CSet (cs : list ascii).  (* [[abc]] *)

Definition cclass_match (k : cclass) (c : ascii) : bool :=
  match k with
  | CRange lo hi => in_range (N_of_ascii lo) (N_of_ascii hi) c
  | CDigit => in_range 48 57 c
  | CLit d => Ascii.eqb d c
  | CSet cs => existsb (Ascii.eqb c) cs
  end.

(** A compiled pattern: a sequence of atoms. *)
Definition regex := list cclass.

(** [pattern.match(s)]: does the pattern match at the start of [s]? *)
Fixpoint match_prefix (r : regex) (s : string) : bool :=
  match r with
  | [] => true
  | k :: r' =>
      match s with
      | "" => false
      | String c s' => cclass_match k c && match_prefix r' s'
      end
  end.

(** The scanner shared by [str.split] and [pattern.split]: the tokens of [s]
    once its first [skip] characters are dropped, cutting at the leftmost
    matches of [r], at most [n] times.  The result is the first token and the
    list of the others. *)
Fixpoint split_scan (r : regex) (s : string) (skip n : nat) : string * list string :=
  match s with
  | "" => ("", [])
  | String c s' =>
      match skip with
      | S k => split_scan r s' k n
      | O =>
          match n with
          | S n' =>
              if negb (bool_decide (r = [])) && match_prefix r s
              then ("", let '(t, ts) := split_scan r s' (pred (List.length r)) n' in t :: ts)
              else let '(t, ts) := split_scan r s' 0 n in (String c t, ts)
          | O => (s, [])
          end
      end
  end.

Definition split_tokens (r : regex) (s : string) (n : nat) : list string :=
  let '(t, ts) := split_scan r s 0 n in t :: ts.

(** The scanner of [str.replace]: [s], once its first [skip] characters are
    dropped, with every leftmost match of [old] replaced by [new]. *)
Fixpoint replace_scan (old : regex) (new : string) (s : string) (skip : nat) : string :=
  match s with
  | "" => ""
  | String c s' =>
      match skip with
      | S k => replace_scan old new s' k
      | O =>
          if negb (bool_decide (old = [])) && match_prefix old s
          then new +:+ replace_scan old new s' (pred (List.length old))
          else String c (replace_scan old new s' 0)
      end
  end.

(** [s.replace("", new)]: [new] before every character and at the end. *)
Fixpoint intersperse (new : string) (s : string) : string :=
  match s with
  | "" => new
  | String c s' => new +:+ String c (intersperse new s')
  end.

(** The one-character string holding a double quote. *)
Definition dquote : string := String (ascii_of_N 34) "".

Definition lower_ascii (c : ascii) : ascii :=
  if in_range 65 90 c then ascii_of_N (N_of_ascii c + 32) else c.

(** [s.lower()] *)
Fixpoint lower (s : string) : string :=
  match s with
  | "" => ""
  | String c s' => String (lower_ascii c) (lower s')
  end.

(** ** The heap and the monad *)

(** An object is its attribute dictionary. *)
Abbreviation object := (gmap string value).
Abbreviation heap := (gmap loc object).

Section Python.
Context `{Foreign}.

Definition M (A : Type) : Type := heap → result A * heap.

Definition ret {A} (a : A) : M A := λ h, (Ok a, h).
Definition raise {A} (e : exn) : M A := λ h, (Raise e, h).
Definition bind {A B} (k : A → M B) (m : M A) : M B :=
  λ h, match m h with
       | (Ok a, h') => k a h'
       | (Raise e, h') => (Raise e, h')
       end.
Definition lift {A} (r : result A) : M A := λ h, (r, h).

#[global] Instance M_ret : MRet M := @ret.
#[global] Instance M_bind : MBind M := @bind.

End Python.

Section Builtins.
Context `{Astropy}.

(** [obj.attr] on a plain attribute. *)
Definition getattr (l : loc) (a : string) : M value :=
  λ h, match h !! l ≫= (.!! a) with
       | Some v => (Ok v, h)
       | None => (Raise AttributeError, h)
       end.

(** [obj.attr = v] on a plain attribute. *)
Definition setattr (l : loc) (a : string) (v : value) : M () :=
  λ h, (Ok (), <[l := <[a := v]> (default ∅ (h !! l))]> h).

(** The truth value of an object, as [if], [not], [and] and [or] take it. *)
Definition truthy (v : value) : bool :=
  match v with
  | VNone => false
  | VInt z => negb (z =? 0)
  | VFloat x => float_truth x
  | VStr s => negb (String.eqb s "")
  | VType _ => true
  | VUnit u => unit_truth u
  | VQuantity x u => quantity_truth x u
  | VRef _ => true
  end.

(** [a or b]: [b] is evaluated only when [a] is false. *)
Definition py_or (a : value) (b : M value) : M value :=
  if truthy a then ret a else b.

(** [a and b]: [b] is evaluated only when [a] is true. *)
Definition py_and (a : value) (b : M value) : M value :=
  if truthy a then b else ret a.

(** [isinstance(v, type)] *)
Definition isinstance_type (v : value) : bool :=
  match v with VType _ => true | _ => false end.

(** [isinstance(v, aunits.Unit)] *)
Definition isinstance_Unit (v : value) : bool :=
  match v with VUnit _ => true | _ => false end.

(** [isinstance(v, Channel)] *)
Definition isinstance_Channel (v : value) : bool :=
  match v with VRef _ => true | _ => false end.

(** [pattern.match(v)], as a truth value. *)
Definition re_match (r : regex) (v : value) : M bool :=
  match v with
  | VStr s => ret (match_prefix r s)
  | _ => raise TypeError
  end.

(** [pattern.split(v, maxsplit=n)]; [maxsplit=0] puts no bound. *)
Definition re_split (r : regex) (v : value) (maxsplit : nat) : M (list value) :=
  match v with
  | VStr s =>
      ret (VStr <$> split_tokens r s
             (match maxsplit with O => String.length s | _ => maxsplit end))
  | _ => raise TypeError
  end.

(** [v.split(sep, maxsplit)]; a negative [maxsplit] puts no bound. *)
Definition str_split (v : value) (sep : string) (maxsplit : Z) : M (list value) :=
  match v with
  | VStr s =>
      if String.eqb sep "" then raise ValueError
      else ret (VStr <$> split_tokens (CLit <$> list_ascii_of_string sep) s
                  (if maxsplit <? 0 then String.length s else Z.to_nat maxsplit))
  | _ => raise AttributeError
  end.

(** [a, b = l] *)
Definition unpack2 (l : list value) : M (value * value) :=
  match l with
  | [a; b] => ret (a, b)
  | _ => raise ValueError
  end.

(** [l[i]] *)
Definition index (l : list value) (i : nat) : M value :=
  match l !! i with
  | Some v => ret v
  | None => raise IndexError
  end.

(** [v.lower()]; only strings have the method. *)
Definition lower_method (v : value) : M value :=
  match v with
  | VStr s => ret (VStr (lower s))
  | _ => raise AttributeError
  end.

(** [v.replace(old, new)]; only strings have the method. *)
Definition str_replace (v : value) (old new : string) : M value :=
  match v with
  | VStr s =>
      ret (VStr (if String.eqb old "" then intersperse new s
                 else replace_scan (CLit <$> list_ascii_of_string old) new s 0))
  | _ => raise AttributeError
  end.

(** ** The name parser *)

(** [_re_ifo = re.compile("[A-Z]\d:")] *)
Definition _re_ifo : regex := [CRange "A" "Z"; CDigit; CLit ":"].

(** [_re_cchar = re.compile("[-_]")] *)
Definition _re_cchar : regex := [CSet ["-"; "_"]%char].

Definition parse_channel_name (name : value) : M (value * value * value * value) :=
  if negb (truthy name) then ret (VNone, VNone, VNone, VNone)
  else
    (* parse ifo *)
    m ← re_match _re_ifo name;
    '(ifo, name) ← (if (m : bool)
                    then parts ← str_split name ":" 1; unpack2 parts
                    else ret (VNone, name));
    (* parse systems *)
    tags ← re_split _re_cchar name 3;
    system ← index tags 0;
    subsystem ← (if (1 <? List.length tags)%nat then index tags 1 else ret VNone);
    signal ← (if (2 <? List.length tags)%nat then index tags 2 else ret VNone);
    ret (ifo, system, subsystem, signal).

End Builtins.

(** ** The class [Channel] *)

Module Channel.
Section Channel.
Context `{F : Foreign} `{!Astropy} `{!Nds}.

(** The property [name]. *)
Definition name (self : loc) : M value := getattr self "_name".

Definition __str__ (self : loc) : M value := name self.

(** The builtin [str(v)]; on a [Channel] it calls [__str__]. *)
Definition str_ (v : value) : M value :=
  match v with
  | VNone => ret (VStr "None")
  | VInt z => ret (VStr (NilZero.string_of_int (Z.to_int z)))
  | VStr s => ret (VStr s)
  | VRef l => __str__ l
  | _ => ret (VStr (foreign_str v))
  end.

Definition name_setter (self : loc) (n : value) : M () :=
  s ← str_ n;
  _ ← setattr self "_name" s;
  nm ← name self;
  '(ifo, system, subsystem, signal) ← parse_channel_name nm;
  _ ← setattr self "ifo" ifo;
  _ ← setattr self "system" system;
  _ ← setattr self "subsystem" subsystem;
  setattr self "signal" signal.

(** The property [sample_rate]. *)
Definition sample_rate (self : loc) : M value := getattr self "_sample_rate".

Definition sample_rate_setter (self : loc) (rate : value) : M () :=
  if isinstance_Unit rate then setattr self "_sample_rate" rate
  else match rate with
       | VNone => setattr self "_sample_rate" VNone
       | _ =>
           x ← lift (float_ rate);
           setattr self "_sample_rate" (VQuantity x Hertz)
       end.

(** The property [unit]. *)
Definition unit (self : loc) : M value := getattr self "_unit".

Definition unit_setter (self : loc) (u : value) : M () :=
  match u with
  | VNone => setattr self "_unit" VNone
  | _ =>
      u' ← lift (Unit_ u);
      setattr self "_unit" (VUnit u')
  end.

(** The property [model]. *)
Definition model (self : loc) : M value := getattr self "_model".

Definition model_setter (self : loc) (mdl : value) : M () :=
  a ← py_and mdl (lower_method mdl);
  v ← py_or a (ret mdl);
  setattr self "_model" v.

(** The property [dtype]. *)
Definition dtype (self : loc) : M value := getattr self "_dtype".

Definition dtype_setter (self : loc) (type_ : value) : M () :=
  if negb (isinstance_type type_) then raise TypeError
  else setattr self "_dtype" type_.

(** The builtin [type], which is a class itself. *)
Definition type : value := VType "type".

Definition __init__ (self : loc) (ch sample_rate_ unit_ dtype_ model_ : value) : M () :=
  '(ch, sample_rate_, unit_, dtype_, model_) ←
    match ch with
    | VRef src =>
        (* test for Channel input *)
        sample_rate_ ← py_or sample_rate_ (sample_rate src);
        unit_ ← py_or unit_ (unit src);
        dtype_ ← py_or dtype_ (dtype src);
        model_ ← py_or model_ (model src);
        ch ← name src;
        ret (ch, sample_rate_, unit_, dtype_, model_)
    | _ => ret (ch, sample_rate_, unit_, dtype_, model_)
    end;
  (* set attributes *)
  _ ← name_setter self ch;
  _ ← sample_rate_setter self sample_rate_;
  _ ← unit_setter self unit_;
  _ ← dtype_setter self type;
  model_setter self model_.

(** The call [Channel(ch, sample_rate, unit, dtype, model)]: a new object is
    allocated and handed to [__init__]. *)
Definition new (ch sample_rate_ unit_ dtype_ model_ : value) : M value :=
  λ h, let self := fresh (dom h) in
       (_ ← __init__ self ch sample_rate_ unit_ dtype_ model_; ret (VRef self))
         (<[self := ∅]> h).

Definition __repr__ (self : loc) : M value :=
  s ← __str__ self;
  match s with
  | VStr s => ret (VStr ("Channel(" +:+ dquote +:+ s +:+ dquote +:+ ")"))
  | _ => raise TypeError
  end.

(** The property [tex_name]: [str(self).replace("_", r"\_")]. *)
Definition tex_name (self : loc) : M value :=
  s ← str_ (VRef self);
  str_replace s "_" "\_".

(** [Channel.fetch]; [host] and [port] default to [None]. *)
Definition fetch (self : loc) (start end_ host port : value) : M value :=
  '(host, port) ←
    (if negb (truthy host) || truthy port
     then
       ifo ← getattr self "ifo";
       '(dhost, dport) ← match DEFAULT_HOSTS ifo with
                         | Some hp => ret hp
                         | None => raise KeyError
                         end;
       host ← py_or host (ret dhost);
       port ← py_or port (ret dport);
       ret (host, port)
     else ret (host, port));
  conn ← lift (NDSConnection host port);
  nm ← name self;
  lift (connection_fetch conn start end_ nm).

End Channel.
End Channel.

(** ** The operations of the class, as a transition system *)

(** The calls a client can make on the class.  [query] only forwards to
    [gwpy.io.cis] and is left out. *)
Inductive call `{Foreign} : Type :=
| CNew (ch sample_rate unit dtype model : value)
| CSetName (self : loc) (n : value)
| CSetSampleRate (self : loc) (rate : value)
| CSetUnit (self : loc) (u : value)
| CSetModel (self : loc) (mdl : value)
| CSetDtype (self : loc) (type_ : value)
| CStr (self : loc)
| CRepr (self : loc)
| CFetch (self : loc) (start end_ host port : value)
| CParse (name : value).

Section Api.
Context `{F : Foreign} `{!Astropy} `{!Nds}.

Definition tuple4 (t : value * value * value * value) : list value :=
  let '(a, b, c, d) := t in [a; b; c; d].

Definition exec (c : call) : M (list value) :=
  match c with
  | CNew ch sr u dt m => v ← Channel.new ch sr u dt m; ret [v]
  | CSetName self n => _ ← Channel.name_setter self n; ret []
  | CSetSampleRate self r => _ ← Channel.sample_rate_setter self r; ret []
  | CSetUnit self u => _ ← Channel.unit_setter self u; ret []
  | CSetModel self m => _ ← Channel.model_setter self m; ret []
  | CSetDtype self t => _ ← Channel.dtype_setter self t; ret []
  | CStr self => v ← Channel.__str__ self; ret [v]
  | CRepr self => v ← Channel.__repr__ self; ret [v]
  | CFetch self s e host port => v ← Channel.fetch self s e host port; ret [v]
  | CParse name => t ← parse_channel_name name; ret (tuple4 t)
  end.

(** One call, whether it returns or raises. *)
Definition step (h h' : heap) : Prop := ∃ c r, exec c h = (r, h').

(** The heaps a program can build from nothing with the calls above. *)
Definition reachable (h : heap) : Prop := rtc step ∅ h.

End Api.

(** ** A small environment to run the model in

    Floats are the integral ones, a unit is its name, and the directory of
    hosts knows the two LIGO sites. *)

Module Sample.

Definition foreign : Foreign := {| float := Z; Unit := string |}.
#[local] Existing Instance foreign.

Definition float_of (v : value) : result Z :=
  match v with
  | VInt z => Ok z
  | VFloat x => Ok x
  | VQuantity x _ => Ok x
  | VStr _ => Raise ValueError
  | _ => Raise TypeError
  end.

Definition Unit_of (v : value) : result string :=
  match v with
  | VStr s => Ok s
  | VUnit u => Ok u
  | _ => Raise TypeError
  end.

Definition astropy : Astropy := {|
  Hertz := "Hz" : Unit;
  float_ := float_of;
  Unit_ := Unit_of;
  float_truth := λ x : float, negb (x =? 0);
  unit_truth := λ _, true;
  quantity_truth := λ (x : float) _, negb (x =? 0);
  foreign_str := λ _, "<object>";
|}.

Definition hosts (ifo : value) : option (value * value) :=
  match ifo with
  | VStr "H1" => Some (VStr "nds.ligo-wa.caltech.edu", VInt 31200)
  | VStr "L1" => Some (VStr "nds.ligo-la.caltech.edu", VInt 31200)
  | _ => None
  end.

(** A connection is the pair it was opened with; a fetch answers with the
    name it was asked for. *)
Definition nds : Nds := {|
  connection := (value * value)%type;
  DEFAULT_HOSTS := hosts;
  NDSConnection := λ host port, Ok (host, port);
  connection_fetch := λ _ _ _ nm, Ok nm;
|}.
#[local] Existing Instances astropy nds.

(** The heap after
    [Channel("H1:PSL-ISS_PDA", sample_rate=16384, unit="m", dtype=float, model="ABC")];
    the new object is at location 1. *)
Definition source : heap :=
  (Channel.new (VStr "H1:PSL-ISS_PDA") (VInt 16384) (VStr "m") (VType "float")
     (VStr "ABC") ∅).2.

(** The heap after [Channel("H1:PSL-ISS_PDA", model="ABC")], which calls
    nothing outside the module; the new object is at location 1. *)
Definition plain : heap :=
  (Channel.new (VStr "H1:PSL-ISS_PDA") VNone VNone VNone (VStr "ABC") ∅).2.

End Sample.

(** ** Reading the heap, and the remainder of a name *)

Section Readings.
Context `{F : Foreign} `{!Astropy}.

(** The attribute [a] of the object at [l], if both exist. *)
Definition attr (h : heap) (l : loc) (a : string) : option value :=
  h !! l ≫= (.!! a).

(** The [i]-th tag, or [None] where lines 124-131 find none. *)
Definition tag (tags : list string) (i : nat) : value :=
  from_option VStr VNone (tags !! i).

(** Lines 122-132 on the remainder [rem] of a name. *)
Definition decompose (ifo : value) (rem : string) : value * value * value * value :=
  let tags := split_tokens _re_cchar rem 3 in
  (ifo, tag tags 0, tag tags 1, tag tags 2).

(** [a or b] on values already computed. *)
Definition pick (a b : value) : value := if truthy a then a else b.

(** A computation that neither reads nor writes the heap. *)
Definition pure {A} (m : M A) : Prop := ∃ r, ∀ h, m h = (r, h).

(** [m] changes no attribute outside [S]. *)
Definition writes {A} (S : loc → string → Prop) (m : M A) : Prop :=
  ∀ h r h', m h = (r, h') → ∀ l a, ¬ S l a → attr h' l a = attr h l a.

(** The attributes [attrs] of the object [self]. *)
Definition touches (self : loc) (attrs : list string) : loc → string → Prop :=
  λ l a, l = self ∧ a ∈ attrs.

(** The attributes the name setter assigns. *)
Definition name_attrs : list string :=
  ["_name"; "ifo"; "system"; "subsystem"; "signal"].

(** The object at [l], once it has a name, has the four components the
    parser gives for that name. *)
Definition derived (h : heap) (l : loc) : Prop :=
  ∀ nm, attr h l "_name" = Some nm →
    ∃ s t, nm = VStr s
      ∧ (∀ h0, parse_channel_name (VStr s) h0 = (Ok t, h0))
      ∧ attr h l "ifo" = Some t.1.1.1
      ∧ attr h l "system" = Some t.1.1.2
      ∧ attr h l "subsystem" = Some t.1.2
      ∧ attr h l "signal" = Some t.2.

Definition name_inv (h : heap) : Prop := ∀ l, derived h l.

(** Running [m] leaves the heap as it is, whether [m] returns or raises. *)
Definition keeps_heap {A} (m : M A) : Prop := ∀ h r h', m h = (r, h') → h' = h.

(** Running [m] keeps [P]. *)
Definition preserves {A} (P : heap → Prop) (m : M A) : Prop :=
  ∀ h r h', P h → m h = (r, h') → P h'.

(** The heap after the five assignments of the name setter. *)
Definition assign_name (self : loc) (nm : value) (t : value * value * value * value)
    (h : heap) : heap :=
  (setattr self "signal" t.2
    (setattr self "subsystem" t.1.2
      (setattr self "system" t.1.1.2
        (setattr self "ifo" t.1.1.1
          (setattr self "_name" nm h).2).2).2).2).2.

(** The shapes of the values the metadata setters store. *)
Definition rate_ok (v : value) : Prop :=
  v = VNone ∨ (∃ u, v = VUnit u) ∨ (∃ x, v = VQuantity x Hertz).

Definition unit_ok (v : value) : Prop := v = VNone ∨ ∃ u, v = VUnit u.

Definition dtype_ok (v : value) : Prop := isinstance_type v = true.

Definition model_ok (v : value) : Prop :=
  truthy v = false ∨ ∃ s, v = VStr s ∧ lower s = s.

(** Every attribute [a] in the heap satisfies [P]. *)
Definition attr_inv (a : string) (P : value → Prop) (h : heap) : Prop :=
  ∀ l v, attr h l a = Some v → P v.

Definition fields_inv (h : heap) : Prop :=
  attr_inv "_sample_rate" rate_ok h
  ∧ attr_inv "_unit" unit_ok h
  ∧ attr_inv "_dtype" dtype_ok h
  ∧ attr_inv "_model" model_ok h.

(** What the model setter stores for [mdl], when it returns. *)
Definition stored_model (mdl : value) : value :=
  match mdl with
  | VStr s => VStr (lower s)
  | _ => mdl
  end.

End Readings.

(** A name with every [-] turned into [_]. *)
Fixpoint underscored (s : string) : string :=
  match s with
  | "" => ""
  | String c s' => String (if Ascii.eqb c "-" then "_"%char else c) (underscored s')
  end.

Definition is_upper (c : ascii) : Prop := (65 ≤ N_of_ascii c ≤ 90)%N.
Definition is_digit (c : ascii) : Prop := (48 ≤ N_of_ascii c ≤ 57)%N.
Definition is_sep (c : ascii) : Prop := c = "-"%char ∨ c = "_"%char.

(** No character of [s] is a separator. *)
Definition sep_free (s : string) : Prop :=
  Forall (λ c, ¬ is_sep c) (list_ascii_of_string s).

(** * Properties *)

(** ** The monad *)

Section MonadFacts.
Context `{F : Foreign}.

Lemma run_bind {A B} (m : M A) (k : A → M B) (h : heap) :
  (m ≫= k) h = match m h with
               | (Ok a, h') => k a h'
               | (Raise e, h') => (Raise e, h')
               end.
Proof. reflexivity. Qed.

Lemma bind_Ok_inv {A B} (m : M A) (k : A → M B) (h h' : heap) (b : B) :
  (m ≫= k) h = (Ok b, h') → ∃ a h1, m h = (Ok a, h1) ∧ k a h1 = (Ok b, h').
Proof.
  rewrite run_bind. destruct (m h) as [[a|e] h1]; [eauto | discriminate].
Qed.

Lemma pure_ret {A} (a : A) : pure (ret a).
Proof. by exists (Ok a). Qed.

Lemma pure_raise {A} (e : exn) : pure (@raise _ A e).
Proof. by exists (Raise e). Qed.

Lemma pure_lift {A} (r : result A) : pure (lift r).
Proof. by exists r. Qed.

Lemma pure_bind {A B} (m : M A) (k : A → M B) :
  pure m → (∀ a, pure (k a)) → pure (m ≫= k).
Proof.
  intros [[a|e] Hm] Hk.
  - destruct (Hk a) as [r Hr]. exists r. intros h. by rewrite run_bind, Hm, Hr.
  - exists (Raise e). intros h. by rewrite run_bind, Hm.
Qed.

End MonadFacts.

(** ** Splitting *)

Section Splitting.

#[local] Arguments Ascii.eqb : simpl never.
#[local] Arguments in_range : simpl never.
#[local] Arguments N_of_ascii : simpl never.

Lemma in_range_true lo hi c :
  in_range lo hi c = true ↔ (lo ≤ N_of_ascii c ≤ hi)%N.
Proof.
  unfold in_range. rewrite andb_true_iff, !N.leb_le. tauto.
Qed.

Lemma sep_match c : cclass_match (CSet ["-"; "_"]%char) c = true ↔ is_sep c.
Proof.
  unfold is_sep. simpl. rewrite orb_false_r, orb_true_iff, !Ascii.eqb_eq. tauto.
Qed.

Lemma sep_free_no_match s :
  sep_free s →
  Forall (λ c, cclass_match (CSet ["-"; "_"]%char) c = false) (list_ascii_of_string s).
Proof.
  intros Hs. eapply Forall_impl; [exact Hs|].
  intros c Hc. apply not_true_is_false. by rewrite sep_match.
Qed.

(** A string without a match is one token. *)
Lemma split_scan_no_match k tok n :
  Forall (λ c, cclass_match k c = false) (list_ascii_of_string tok) →
  split_scan [k] tok 0 n = (tok, []).
Proof.
  induction tok as [|c tok IH]; simpl; intros Hf; [done|].
  apply Forall_cons in Hf as [Hc Hf]. destruct n as [|n]; [done|].
  rewrite Hc. simpl. by rewrite IH.
Qed.

(** The first match ends the first token. *)
Lemma split_scan_cut k tok c rest n :
  Forall (λ c, cclass_match k c = false) (list_ascii_of_string tok) →
  cclass_match k c = true →
  split_scan [k] (tok +:+ String c rest) 0 (S n)
  = (tok, let '(t, ts) := split_scan [k] rest 0 n in t :: ts).
Proof.
  intros Hf Hc. induction tok as [|d tok IH]; simpl.
  - by rewrite Hc.
  - apply Forall_cons in Hf as [Hd Hf]. rewrite Hd. simpl. by rewrite IH.
Qed.

(** With no split left, the rest is one token. *)
Lemma split_scan_done r s : split_scan r s 0 0 = (s, []).
Proof. by destruct s. Qed.

Lemma split_tokens_cut k tok c rest n :
  Forall (λ c, cclass_match k c = false) (list_ascii_of_string tok) →
  cclass_match k c = true →
  split_tokens [k] (tok +:+ String c rest) (S n) = tok :: split_tokens [k] rest n.
Proof.
  intros Hf Hc. unfold split_tokens. by rewrite split_scan_cut.
Qed.

Lemma split_tokens_no_match k tok n :
  Forall (λ c, cclass_match k c = false) (list_ascii_of_string tok) →
  split_tokens [k] tok n = [tok].
Proof.
  intros Hf. unfold split_tokens. by rewrite split_scan_no_match.
Qed.

Lemma split_tokens_done r s : split_tokens r s 0 = [s].
Proof. unfold split_tokens. by rewrite split_scan_done. Qed.

(** A split never returns the empty list. *)
Lemma split_tokens_nonempty r s n : ∃ t ts, split_tokens r s n = t :: ts.
Proof. unfold split_tokens. destruct (split_scan r s 0 n); eauto. Qed.

(** The pattern [_re_ifo] matches exactly the names that start with an
    upper-case letter, a digit and a colon. *)
Lemma match_ifo s :
  match_prefix [CRange "A" "Z"; CDigit; CLit ":"] s = true ↔
  ∃ a d rest, s = String a (String d (String ":" rest)) ∧ is_upper a ∧ is_digit d.
Proof.
  unfold is_upper, is_digit. split.
  - destruct s as [|a [|d [|c rest]]]; simpl; try (rewrite ?andb_false_r; discriminate).
    rewrite !andb_true_iff, !in_range_true.
    intros (Ha & Hd & Hc & _). apply Ascii.eqb_eq in Hc as <-.
    by exists a, d, rest.
  - intros (a & d & rest & -> & Ha & Hd). simpl.
    rewrite !andb_true_iff, !in_range_true.
    done.
Qed.

Lemma colon_not_upper a : is_upper a → Ascii.eqb ":" a = false.
Proof.
  intros Ha. apply Ascii.eqb_neq. intros <-. unfold is_upper in Ha.
  change (N_of_ascii ":") with 58%N in Ha. lia.
Qed.

Lemma colon_not_digit d : is_digit d → Ascii.eqb ":" d = false.
Proof.
  intros Hd. apply Ascii.eqb_neq. intros <-. unfold is_digit in Hd.
  change (N_of_ascii ":") with 58%N in Hd. lia.
Qed.

(** [name.split(":", 1)] on a name that [_re_ifo] matches. *)
Lemma split_colon a d rest :
  is_upper a → is_digit d →
  split_tokens [CLit ":"] (String a (String d (String ":" rest))) 1
  = [String a (String d ""); rest].
Proof.
  intros Ha Hd. unfold split_tokens. simpl.
  rewrite (colon_not_upper a Ha), (colon_not_digit d Hd). simpl.
  by rewrite split_scan_done.
Qed.

End Splitting.

(** ** The name parser *)

Section Parsing.
Context `{F : Foreign} `{!Astropy}.

(** Lines 122-132: the tags of the remainder. *)
Lemma parse_systems (ifo : value) (rem : string) (h : heap) :
  (tags ← re_split _re_cchar (VStr rem) 3;
   system ← index tags 0;
   subsystem ← (if (1 <? List.length tags)%nat then index tags 1 else ret VNone);
   signal ← (if (2 <? List.length tags)%nat then index tags 2 else ret VNone);
   ret (ifo, system, subsystem, signal)) h
  = (Ok (decompose ifo rem), h).
Proof.
  unfold decompose, tag, re_split.
  destruct (split_tokens_nonempty _re_cchar rem 3) as (t & ts & ->).
  destruct ts as [|t1 [|t2 ts]]; reflexivity.
Qed.

Lemma truthy_nonempty (s : string) : s ≠ "" → truthy (VStr s) = true.
Proof.
  intros Hs. simpl. apply negb_true_iff, String.eqb_neq, Hs.
Qed.

(** A name with an observatory prefix. *)
Lemma parse_with_ifo (a d : ascii) (rest : string) (h : heap) :
  is_upper a → is_digit d →
  parse_channel_name (VStr (String a (String d (String ":" rest)))) h
  = (Ok (decompose (VStr (String a (String d ""))) rest), h).
Proof.
  intros Ha Hd. unfold parse_channel_name.
  rewrite truthy_nonempty by done. cbn [negb].
  assert (Hm : match_prefix _re_ifo (String a (String d (String ":" rest))) = true).
  { apply match_ifo. by exists a, d, rest. }
  rewrite run_bind. cbn [re_match ret]. rewrite Hm.
  rewrite run_bind, run_bind. cbn [str_split].
  change (String.eqb ":" "") with false. cbn [list_ascii_of_string fmap list_fmap].
  change (1 <? 0) with false. change (Z.to_nat 1) with 1%nat.
  cbn [ret]. rewrite split_colon by done. cbn [fmap list_fmap unpack2 ret].
  apply parse_systems.
Qed.

(** A name without one. *)
Lemma parse_without_ifo (s : string) (h : heap) :
  s ≠ "" → match_prefix _re_ifo s = false →
  parse_channel_name (VStr s) h = (Ok (decompose VNone s), h).
Proof.
  intros Hs Hm. unfold parse_channel_name.
  rewrite truthy_nonempty by done. cbn [negb].
  rewrite run_bind. cbn [re_match ret]. rewrite Hm.
  rewrite run_bind. cbn [ret].
  apply parse_systems.
Qed.

Lemma parse_falsy (v : value) (h : heap) :
  truthy v = false → parse_channel_name v h = (Ok (VNone, VNone, VNone, VNone), h).
Proof. intros Hv. unfold parse_channel_name. by rewrite Hv. Qed.

(** On a string the parser always returns. *)
Lemma parse_str_total (s : string) :
  ∃ t, ∀ h, parse_channel_name (VStr s) h = (Ok t, h).
Proof.
  destruct (decide (s = "")) as [->|Hs].
  { eexists. intros h. by apply parse_falsy. }
  destruct (match_prefix _re_ifo s) eqn:Hm.
  - apply match_ifo in Hm as (a & d & rest & -> & Ha & Hd).
    eexists. intros h. by apply parse_with_ifo.
  - eexists. intros h. by apply parse_without_ifo.
Qed.

(** The parser neither reads nor writes the heap. *)
Lemma parse_pure (name : value) : pure (parse_channel_name name).
Proof.
  unfold parse_channel_name. destruct (negb (truthy name)); [apply pure_ret|].
  apply pure_bind; [destruct name; apply pure_ret || apply pure_raise|].
  intros m. apply pure_bind.
  { destruct m; [|apply pure_ret].
    apply pure_bind.
    - unfold str_split. destruct name; try apply pure_raise.
      destruct (String.eqb ":" ""); apply pure_ret || apply pure_raise.
    - intros parts. unfold unpack2.
      destruct parts as [|? [|? [|]]]; apply pure_ret || apply pure_raise. }
  intros [ifo name']. apply pure_bind.
  { destruct name'; apply pure_ret || apply pure_raise. }
  assert (Hindex : ∀ l i, pure (index l i)).
  { intros l i. unfold index. destruct (l !! i); apply pure_ret || apply pure_raise. }
  intros tags. apply pure_bind; [apply Hindex|].
  intros system. apply pure_bind; [destruct (_ <? _)%nat; apply Hindex || apply pure_ret|].
  intros subsystem. apply pure_bind; [destruct (_ <? _)%nat; apply Hindex || apply pure_ret|].
  intros signal. apply pure_ret.
Qed.

End Parsing.

Section ParserClaims.
Context `{F : Foreign} `{!Astropy}.

(** C1: a name of the canonical form [IFO:SYS-SUB_SIG] (an upper-case letter,
    a digit, a colon, then three tokens free of separators, separated by [-]
    or [_]) parses to exactly [(IFO, SYS, SUB, SIG)]; the empty name and the
    absent name parse to four times [None]. *)
Theorem parse_canonical_name :
  (∀ (a d s1 s2 : ascii) (sys sub sig : string) (h : heap),
     is_upper a → is_digit d → is_sep s1 → is_sep s2 →
     sep_free sys → sep_free sub → sep_free sig →
     parse_channel_name
       (VStr (String a (String d (String ":"
          (sys +:+ String s1 (sub +:+ String s2 sig)))))) h
     = (Ok (VStr (String a (String d "")), VStr sys, VStr sub, VStr sig), h))
  ∧ (∀ h : heap, parse_channel_name (VStr "") h = (Ok (VNone, VNone, VNone, VNone), h))
  ∧ (∀ h : heap, parse_channel_name VNone h = (Ok (VNone, VNone, VNone, VNone), h)).
Proof.
  split; [|split; intros h; by apply parse_falsy].
  intros a d s1 s2 sys sub sig h Ha Hd Hs1 Hs2 Hsys Hsub Hsig.
  rewrite parse_with_ifo by done. unfold decompose, _re_cchar.
  rewrite split_tokens_cut, split_tokens_cut, split_tokens_no_match;
    auto using sep_free_no_match; by apply sep_match.
Qed.

(** C3: on a non-empty name that starts with an upper-case letter, a digit and
    a colon, [ifo] is the two characters before the colon and the text after
    the colon is what lines 122-132 decompose; on every other non-empty name
    [ifo] is [None] and the whole name is decomposed. *)
Theorem parse_ifo_prefix (s : string) (h : heap) :
  s ≠ "" →
  (∀ a d rest,
     s = String a (String d (String ":" rest)) → is_upper a → is_digit d →
     parse_channel_name (VStr s) h
     = (Ok (decompose (VStr (String a (String d ""))) rest), h))
  ∧ ((∀ a d rest,
        s = String a (String d (String ":" rest)) → ¬ (is_upper a ∧ is_digit d)) →
     parse_channel_name (VStr s) h = (Ok (decompose VNone s), h)).
Proof.
  intros Hs. split.
  - intros a d rest -> Ha Hd. by apply parse_with_ifo.
  - intros Hno. apply parse_without_ifo; [done|].
    apply not_true_is_false. intros (a & d & rest & E & Ha & Hd)%match_ifo.
    by apply (Hno a d rest).
Qed.

(** C9: the parser is deterministic and has no effect: on a string it always
    returns a tuple; on equal names, in any two heaps, it returns equal
    results; and it leaves each heap as it found it. *)
Theorem parse_channel_name_pure :
  (∀ s : string, ∃ t, ∀ h : heap, parse_channel_name (VStr s) h = (Ok t, h))
  ∧ (∀ (n1 n2 : value) (h1 h2 : heap),
       n1 = n2 →
       (parse_channel_name n1 h1).1 = (parse_channel_name n2 h2).1
       ∧ (parse_channel_name n1 h1).2 = h1
       ∧ (parse_channel_name n2 h2).2 = h2).
Proof.
  split; [apply parse_str_total|].
  intros n1 n2 h1 h2 <-. destruct (parse_pure n1) as [r Hr]. by rewrite !Hr.
Qed.

End ParserClaims.

(** ** Frames: what a computation may write *)

Section Frames.
Context `{F : Foreign} `{!Astropy} `{!Nds}.

Lemma attr_setattr (l : loc) (a : string) (v : value) (h : heap) (l' : loc) (a' : string) :
  attr (setattr l a v h).2 l' a'
  = if decide (l' = l ∧ a' = a) then Some v else attr h l' a'.
Proof.
  unfold attr, setattr. simpl. destruct (decide (l' = l)) as [->|Hl].
  - rewrite lookup_insert_eq. simpl. destruct (decide (a' = a)) as [->|Ha].
    + rewrite lookup_insert_eq. by rewrite decide_True.
    + rewrite lookup_insert_ne by done. rewrite decide_False by tauto.
      by destruct (h !! l).
  - rewrite lookup_insert_ne by done. by rewrite decide_False by tauto.
Qed.

(** Allocating an object at an unused location adds no attribute. *)
Lemma attr_alloc (h : heap) (self l : loc) (a : string) :
  h !! self = None → attr (<[self := ∅]> h) l a = attr h l a.
Proof.
  intros Hf. unfold attr. destruct (decide (l = self)) as [->|Hl].
  - by rewrite lookup_insert_eq, Hf.
  - by rewrite lookup_insert_ne.
Qed.

Lemma fresh_unused (h : heap) : h !! fresh (dom h) = None.
Proof. apply not_elem_of_dom, is_fresh. Qed.

Lemma writes_pure {A} S (m : M A) : pure m → writes S m.
Proof. intros [r0 Hm] h r h' E l a _. rewrite Hm in E. by inversion E. Qed.

Lemma writes_ret {A} S (a : A) : writes S (ret a).
Proof. apply writes_pure, pure_ret. Qed.

Lemma writes_raise {A} S (e : exn) : writes S (@raise _ A e).
Proof. apply writes_pure, pure_raise. Qed.

Lemma writes_lift {A} S (r : result A) : writes S (lift r).
Proof. apply writes_pure, pure_lift. Qed.

Lemma writes_getattr S (l : loc) (a : string) : writes S (getattr l a).
Proof.
  intros h r h' E l' a' _. unfold getattr in E.
  destruct (h !! l ≫= _); by inversion E.
Qed.

Lemma writes_setattr (self : loc) (attrs : list string) (a : string) (v : value) :
  a ∈ attrs → writes (touches self attrs) (setattr self a v).
Proof.
  intros Ha h r h' E l' a' Hn.
  replace h' with (setattr self a v h).2 by by rewrite E.
  rewrite attr_setattr. rewrite decide_False; [done|].
  intros [-> ->]. by apply Hn.
Qed.

Lemma writes_bind {A B} S (m : M A) (k : A → M B) :
  writes S m → (∀ a, writes S (k a)) → writes S (m ≫= k).
Proof.
  intros Hm Hk h r h' E l a Hn. rewrite run_bind in E.
  destruct (m h) as [[x|e] h1] eqn:Em.
  - rewrite (Hk x _ _ _ E l a Hn). eapply Hm; eauto.
  - inversion E; subst. eapply Hm; eauto.
Qed.

Lemma writes_py_or S (a : value) (b : M value) : writes S b → writes S (py_or a b).
Proof. intros Hb. unfold py_or. destruct (truthy a); [apply writes_ret | done]. Qed.

Lemma writes_py_and S (a : value) (b : M value) : writes S b → writes S (py_and a b).
Proof. intros Hb. unfold py_and. destruct (truthy a); [done | apply writes_ret]. Qed.

Lemma writes_parse S (name : value) : writes S (parse_channel_name name).
Proof. apply writes_pure, parse_pure. Qed.

End Frames.

(** Walks through a computation, one statement at a time. *)
Ltac frame :=
  repeat first
    [ apply writes_ret | apply writes_raise | apply writes_lift
    | apply writes_getattr | apply writes_parse
    | apply writes_setattr; repeat constructor
    | apply writes_py_or | apply writes_py_and
    | apply writes_bind; [|intros ?]
    | match goal with
      | |- writes _ (if ?b then _ else _) => destruct b
      | |- writes _ (match ?v with _ => _ end) => destruct v
      end ].

Section SetterFrames.
Context `{F : Foreign} `{!Astropy} `{!Nds}.

Lemma writes_str S (v : value) : writes S (Channel.str_ v).
Proof. unfold Channel.str_, Channel.__str__, Channel.name. frame. Qed.

Lemma writes_name_setter (self : loc) (n : value) :
  writes (touches self name_attrs) (Channel.name_setter self n).
Proof.
  unfold Channel.name_setter, Channel.name, name_attrs.
  apply writes_bind; [apply writes_str|intros ?]. frame.
Qed.

Lemma writes_sample_rate_setter (self : loc) (rate : value) :
  writes (touches self ["_sample_rate"]) (Channel.sample_rate_setter self rate).
Proof. unfold Channel.sample_rate_setter. frame. Qed.

Lemma writes_unit_setter (self : loc) (u : value) :
  writes (touches self ["_unit"]) (Channel.unit_setter self u).
Proof. unfold Channel.unit_setter. frame. Qed.

Lemma writes_model_setter (self : loc) (mdl : value) :
  writes (touches self ["_model"]) (Channel.model_setter self mdl).
Proof. unfold Channel.model_setter, lower_method. frame. Qed.

Lemma writes_dtype_setter (self : loc) (t : value) :
  writes (touches self ["_dtype"]) (Channel.dtype_setter self t).
Proof. unfold Channel.dtype_setter. frame. Qed.

Lemma writes_repr S (self : loc) : writes S (Channel.__repr__ self).
Proof. unfold Channel.__repr__, Channel.__str__, Channel.name. frame. Qed.

Lemma writes_fetch S (self : loc) (s e host port : value) :
  writes S (Channel.fetch self s e host port).
Proof. unfold Channel.fetch, Channel.name. frame. Qed.

Lemma writes_weaken {A} (S S' : loc → string → Prop) (m : M A) :
  (∀ l a, S l a → S' l a) → writes S m → writes S' m.
Proof. intros HS Hm h r h' E l a Hn. eapply Hm; eauto. Qed.

End SetterFrames.
(** ** The derived components follow the name *)

Section Invariant.
Context `{F : Foreign} `{!Astropy} `{!Nds}.

Lemma getattr_attr (h : heap) (l : loc) (a : string) (v : value) :
  attr h l a = Some v → getattr l a h = (Ok v, h).
Proof. unfold attr, getattr. by intros ->. Qed.

Lemma getattr_Ok (h h' : heap) (l : loc) (a : string) (v : value) :
  getattr l a h = (Ok v, h') → attr h l a = Some v ∧ h' = h.
Proof.
  unfold attr, getattr. destruct (h !! l ≫= _); intros E; by inversion E.
Qed.

Lemma str_read_only (n : value) (h h' : heap) r :
  Channel.str_ n h = (r, h') → h' = h.
Proof.
  unfold Channel.str_, Channel.__str__, Channel.name, getattr.
  destruct n; try (intros E; by inversion E).
  destruct (h !! l ≫= _); intros E; by inversion E.
Qed.

Lemma str_is_string (n v : value) (h h' : heap) :
  name_inv h → Channel.str_ n h = (Ok v, h') → ∃ s, v = VStr s.
Proof.
  intros Hinv. unfold Channel.str_, Channel.__str__, Channel.name.
  destruct n; try (intros E; inversion E; eauto).
  apply getattr_Ok in E as [E _].
  destruct (Hinv l _ E) as (s & t & -> & _). eauto.
Qed.

(** The name setter on a value whose [str] is [nm]. *)
Lemma name_setter_run (self : loc) (n nm : value) r (h : heap) :
  Channel.str_ n h = (Ok nm, h) →
  (∀ h0, parse_channel_name nm h0 = (r, h0)) →
  Channel.name_setter self n h
  = match r with
    | Ok t => (Ok (), assign_name self nm t h)
    | Raise e => (Raise e, (setattr self "_name" nm h).2)
    end.
Proof.
  intros Hstr Hparse. unfold Channel.name_setter, Channel.name.
  rewrite run_bind, Hstr. cbv beta iota. rewrite run_bind.
  change (setattr self "_name" nm h)
    with (Ok (), (setattr self "_name" nm h).2).
  cbv beta iota. rewrite run_bind, (getattr_attr _ _ _ nm).
  2:{ rewrite attr_setattr. by rewrite decide_True. }
  cbv beta iota. rewrite run_bind, Hparse.
  destruct r as [[[[i sy] su] sg]|e]; reflexivity.
Qed.

Lemma attr_assign_name (self : loc) (nm : value) t (h : heap) (l : loc) (a : string) :
  attr (assign_name self nm t h) l a
  = if decide (l = self) then
      if decide (a = "signal") then Some t.2
      else if decide (a = "subsystem") then Some t.1.2
      else if decide (a = "system") then Some t.1.1.2
      else if decide (a = "ifo") then Some t.1.1.1
      else if decide (a = "_name") then Some nm
      else attr h l a
    else attr h l a.
Proof.
  unfold assign_name. rewrite !attr_setattr.
  repeat match goal with |- context [decide ?P] => destruct (decide P) end;
    subst; try done; exfalso; intuition congruence.
Qed.

Lemma derived_ext (h h' : heap) (l : loc) :
  (∀ a, a ∈ name_attrs → attr h' l a = attr h l a) → derived h l → derived h' l.
Proof.
  intros Heq Hd nm.
  rewrite !Heq by (unfold name_attrs; repeat constructor). apply Hd.
Qed.

(** After the five assignments the object at [self] has the components of
    its new name. *)
Lemma derived_assign_name (self : loc) (s : string) t (h : heap) :
  (∀ h0, parse_channel_name (VStr s) h0 = (Ok t, h0)) →
  derived (assign_name self (VStr s) t h) self.
Proof.
  intros Hparse nm Hnm.
  rewrite attr_assign_name, decide_True in Hnm by done.
  injection Hnm as <-. exists s, t.
  repeat split; [done|..]; rewrite attr_assign_name, decide_True by done; reflexivity.
Qed.

Lemma preserves_bind {A B} P (m : M A) (k : A → M B) :
  preserves P m → (∀ a, preserves P (k a)) → preserves P (m ≫= k).
Proof.
  intros Hm Hk h r h' HP E. rewrite run_bind in E.
  destruct (m h) as [[x|e] h1] eqn:Em.
  - eapply Hk; [|exact E]. eapply Hm; eauto.
  - inversion E; subst. eapply Hm; eauto.
Qed.

(** A computation that writes none of the name attributes keeps the
    invariant. *)
Lemma writes_preserves {A} S (m : M A) :
  writes S m → (∀ l a, S l a → a ∉ name_attrs) → preserves name_inv m.
Proof.
  intros Hm HS h r h' Hinv E l.
  apply (derived_ext h); [|apply Hinv].
  intros a Ha. eapply Hm; [exact E|]. intros HSl. by apply (HS l a).
Qed.

Lemma preserves_read_only {A} (m : M A) :
  writes (λ _ _, False) m → preserves name_inv m.
Proof. intros Hm. by apply (writes_preserves (λ _ _, False)). Qed.

Lemma preserves_name_setter (self : loc) (n : value) :
  preserves name_inv (Channel.name_setter self n).
Proof.
  intros h r h' Hinv E.
  destruct (Channel.str_ n h) as [[v|e] h1] eqn:Hstr.
  - pose proof (str_read_only _ _ _ _ Hstr) as ->.
    destruct (str_is_string _ _ _ _ Hinv Hstr) as [s ->].
    destruct (parse_str_total s) as [t Ht].
    rewrite (name_setter_run self n (VStr s) (Ok t) h Hstr Ht) in E.
    inversion E; subst.
    intros l. destruct (decide (l = self)) as [->|Hl].
    + by apply derived_assign_name.
    + apply (derived_ext h); [|apply Hinv].
      intros a _. rewrite attr_assign_name. by rewrite decide_False.
  - pose proof (str_read_only _ _ _ _ Hstr) as ->.
    unfold Channel.name_setter in E. rewrite run_bind, Hstr in E.
    by inversion E; subst.
Qed.

End Invariant.

(** Closes [a ∉ name_attrs] for a literal [a]. *)
Ltac not_name :=
  unfold name_attrs; rewrite !not_elem_of_cons;
  repeat split; (discriminate || apply not_elem_of_nil).

Section Reachable.
Context `{F : Foreign} `{!Astropy} `{!Nds}.

Lemma preserves_init (self : loc) (ch sr u dt m : value) :
  preserves name_inv (Channel.__init__ self ch sr u dt m).
Proof.
  unfold Channel.__init__. apply preserves_bind.
  { apply preserves_read_only.
    unfold Channel.sample_rate, Channel.unit, Channel.dtype, Channel.model, Channel.name.
    frame. }
  intros [[[[ch' sr'] u'] dt'] m'].
  apply preserves_bind; [apply preserves_name_setter|intros _].
  assert (Hother : ∀ a, a ∉ name_attrs → ∀ l b, touches self [a] l b → b ∉ name_attrs).
  { intros a Ha l b [_ ->%list_elem_of_singleton]. done. }
  apply preserves_bind; [|intros _].
  { eapply writes_preserves; [apply writes_sample_rate_setter|].
    apply Hother. not_name. }
  apply preserves_bind; [|intros _].
  { eapply writes_preserves; [apply writes_unit_setter|].
    apply Hother. not_name. }
  apply preserves_bind; [|intros _].
  { eapply writes_preserves; [apply writes_dtype_setter|].
    apply Hother. not_name. }
  eapply writes_preserves; [apply writes_model_setter|].
  apply Hother. not_name.
Qed.

Lemma name_inv_alloc (h : heap) :
  name_inv h → name_inv (<[fresh (dom h) := ∅]> h).
Proof.
  intros Hinv l. apply (derived_ext h); [|apply Hinv].
  intros a _. apply attr_alloc, fresh_unused.
Qed.

Lemma preserves_new (ch sr u dt m : value) :
  preserves name_inv (Channel.new ch sr u dt m).
Proof.
  intros h r h' Hinv E. unfold Channel.new in E.
  eapply preserves_bind; [apply preserves_init| |apply name_inv_alloc, Hinv|exact E].
  intros ?. apply preserves_read_only, writes_ret.
Qed.

Lemma preserves_exec (c : call) : preserves name_inv (exec c).
Proof.
  assert (Hother : ∀ self a, a ∉ name_attrs → ∀ l b, touches self [a] l b → b ∉ name_attrs).
  { intros self a Ha l b [_ ->%list_elem_of_singleton]. done. }
  assert (Hret : ∀ A (v : A), preserves name_inv (ret v)).
  { intros A v. apply preserves_read_only, writes_ret. }
  destruct c; simpl; (apply preserves_bind; [|intros ?; apply Hret]).
  - apply preserves_new.
  - apply preserves_name_setter.
  - eapply writes_preserves; [apply writes_sample_rate_setter|].
    apply Hother. not_name.
  - eapply writes_preserves; [apply writes_unit_setter|].
    apply Hother. not_name.
  - eapply writes_preserves; [apply writes_model_setter|].
    apply Hother. not_name.
  - eapply writes_preserves; [apply writes_dtype_setter|].
    apply Hother. not_name.
  - apply preserves_read_only, writes_getattr.
  - apply preserves_read_only, writes_repr.
  - apply preserves_read_only, writes_fetch.
  - apply preserves_read_only, writes_parse.
Qed.

Lemma name_inv_empty : name_inv ∅.
Proof. intros l nm. unfold attr. by rewrite lookup_empty. Qed.

Lemma reachable_name_inv (h : heap) : reachable h → name_inv h.
Proof.
  unfold reachable. intros Hr.
  eapply (rtc_ind_r (λ h, name_inv h)); [apply name_inv_empty| |exact Hr].
  intros h1 h2 _ (c & r & E) IH. eapply preserves_exec; eauto.
Qed.

End Reachable.

Section NameClaims.
Context `{F : Foreign} `{!Astropy} `{!Nds}.

(** [__init__] writes to the object it initialises and to no other. *)
Lemma writes_init (self : loc) (ch sr u dt m : value) :
  writes (λ l _, l = self) (Channel.__init__ self ch sr u dt m).
Proof.
  assert (Hself : ∀ attrs l a, touches self attrs l a → l = self) by by intros ??? [].
  unfold Channel.__init__. apply writes_bind.
  { unfold Channel.sample_rate, Channel.unit, Channel.dtype, Channel.model, Channel.name.
    frame. }
  intros [[[[ch' sr'] u'] dt'] m'].
  apply writes_bind; [|intros ?].
  { eapply writes_weaken; [apply Hself|apply writes_name_setter]. }
  apply writes_bind; [|intros ?].
  { eapply writes_weaken; [apply Hself|apply writes_sample_rate_setter]. }
  apply writes_bind; [|intros ?].
  { eapply writes_weaken; [apply Hself|apply writes_unit_setter]. }
  apply writes_bind; [|intros ?].
  { eapply writes_weaken; [apply Hself|apply writes_dtype_setter]. }
  eapply writes_weaken; [apply Hself|apply writes_model_setter].
Qed.

(** A construction writes to the new object and to no other. *)
Lemma new_frame (ch sr u dt m : value) (h h' : heap) r (l : loc) (a : string) :
  Channel.new ch sr u dt m h = (r, h') → l ≠ fresh (dom h) →
  attr h' l a = attr h l a.
Proof.
  intros E Hl. unfold Channel.new in E.
  rewrite <- (attr_alloc h (fresh (dom h)) l a (fresh_unused h)).
  eapply (writes_bind (λ l _, l = fresh (dom h))); [apply writes_init| |exact E|exact Hl].
  intros ?. apply writes_ret.
Qed.

(** C4: a name assignment that returns leaves the object with the components
    the parser gives for its new name; no other call of the class changes a
    name or a component of an existing object; so in every heap a program
    can reach, every named object carries the components of its name. *)
Theorem components_follow_name :
  (∀ (self : loc) (n : value) (h h' : heap),
     Channel.name_setter self n h = (Ok (), h') →
     ∃ nm t, attr h' self "_name" = Some nm
       ∧ parse_channel_name nm h' = (Ok t, h')
       ∧ attr h' self "ifo" = Some t.1.1.1
       ∧ attr h' self "system" = Some t.1.1.2
       ∧ attr h' self "subsystem" = Some t.1.2
       ∧ attr h' self "signal" = Some t.2)
  ∧ (∀ (c : call) (h h' : heap) r (l : loc) (a : string),
       exec c h = (r, h') → a ∈ name_attrs → attr h' l a ≠ attr h l a →
       (∃ n, c = CSetName l n)
       ∨ (∃ ch sr u dt m, c = CNew ch sr u dt m ∧ h !! l = None))
  ∧ (∀ (h : heap) (l : loc) (nm : value),
       reachable h → attr h l "_name" = Some nm →
       ∃ s t, nm = VStr s
         ∧ parse_channel_name (VStr s) h = (Ok t, h)
         ∧ attr h l "ifo" = Some t.1.1.1
         ∧ attr h l "system" = Some t.1.1.2
         ∧ attr h l "subsystem" = Some t.1.2
         ∧ attr h l "signal" = Some t.2).
Proof.
  split; [|split].
  - intros self n h h' E.
    destruct (Channel.str_ n h) as [[nm|e] h1] eqn:Hstr.
    2:{ unfold Channel.name_setter in E. rewrite run_bind, Hstr in E. discriminate. }
    pose proof (str_read_only _ _ _ _ Hstr) as ->.
    destruct (parse_pure nm) as [r Hr].
    rewrite (name_setter_run self n nm r h Hstr Hr) in E.
    destruct r as [t|e]; [|discriminate]. inversion E; subst.
    exists nm, t. rewrite Hr.
    repeat split; rewrite attr_assign_name, decide_True by done; reflexivity.
  - intros c h h' r l a E Ha Hne.
    assert (Hframe : ∀ (S : loc → string → Prop),
              writes S (exec c) → (∀ l b, S l b → b ∉ name_attrs) → False).
    { intros S Hw HS. apply Hne. eapply Hw; [exact E|]. intros HSl. by apply (HS l a). }
    assert (Hother : ∀ self b, b ∉ name_attrs → ∀ l c, touches self [b] l c → c ∉ name_attrs).
    { intros self b Hb l' c' [_ ->%list_elem_of_singleton]. done. }
    destruct c; simpl in *.
    + right. exists ch, sample_rate, unit, dtype, model. split; [done|].
      destruct (decide (l = fresh (dom h))) as [->|Hl]; [apply fresh_unused|].
      destruct Hne. rewrite run_bind in E.
      destruct (Channel.new _ _ _ _ _ h) as [[v|e] h1] eqn:En;
        inversion E; subst; by eapply new_frame.
    + left. destruct (decide (l = self)) as [->|Hl]; [eauto|].
      destruct Hne. eapply (writes_bind (touches self name_attrs));
        [apply writes_name_setter| |exact E|by intros []].
      intros ?. apply writes_ret.
    + destruct (Hframe (touches self ["_sample_rate"])); [|apply Hother; not_name].
      apply writes_bind; [apply writes_sample_rate_setter|intros ?; apply writes_ret].
    + destruct (Hframe (touches self ["_unit"])); [|apply Hother; not_name].
      apply writes_bind; [apply writes_unit_setter|intros ?; apply writes_ret].
    + destruct (Hframe (touches self ["_model"])); [|apply Hother; not_name].
      apply writes_bind; [apply writes_model_setter|intros ?; apply writes_ret].
    + destruct (Hframe (touches self ["_dtype"])); [|apply Hother; not_name].
      apply writes_bind; [apply writes_dtype_setter|intros ?; apply writes_ret].
    + destruct (Hframe (λ _ _, False)); [|done].
      apply writes_bind; [apply writes_getattr|intros ?; apply writes_ret].
    + destruct (Hframe (λ _ _, False)); [|done].
      apply writes_bind; [apply writes_repr|intros ?; apply writes_ret].
    + destruct (Hframe (λ _ _, False)); [|done].
      apply writes_bind; [apply writes_fetch|intros ?; apply writes_ret].
    + destruct (Hframe (λ _ _, False)); [|done].
      apply writes_bind; [apply writes_parse|intros ?; apply writes_ret].
  - intros h l nm Hr Hnm.
    destruct (reachable_name_inv h Hr l nm Hnm) as (s & t & -> & Ht & ?).
    exists s, t. by rewrite Ht.
Qed.

End NameClaims.

(** ** The constructor *)

Section Constructor.
Context `{F : Foreign} `{!Astropy} `{!Nds}.

Lemma py_or_getattr (x b : value) (l : loc) (a : string) (h : heap) :
  attr h l a = Some b → py_or x (getattr l a) h = (Ok (pick x b), h).
Proof.
  intros Hb. unfold py_or, pick. destruct (truthy x); [done|].
  by apply getattr_attr.
Qed.

(** Copying reads the source and then initialises as from a name. *)
Lemma init_copy (self src : loc) (sr u dt m : value) (h : heap)
    (nm : string) (r0 u0 d0 m0 : value) :
  attr h src "_name" = Some (VStr nm) →
  attr h src "_sample_rate" = Some r0 →
  attr h src "_unit" = Some u0 →
  attr h src "_dtype" = Some d0 →
  attr h src "_model" = Some m0 →
  Channel.__init__ self (VRef src) sr u dt m h
  = Channel.__init__ self (VStr nm) (pick sr r0) (pick u u0) dt (pick m m0) h.
Proof.
  intros Hn Hr Hu Hd Hm. unfold Channel.__init__.
  unfold Channel.sample_rate, Channel.unit, Channel.dtype, Channel.model, Channel.name.
  rewrite (run_bind (_ ≫= _)). rewrite run_bind, (py_or_getattr sr r0) by done.
  cbv beta iota. rewrite run_bind, (py_or_getattr u u0) by done.
  cbv beta iota. rewrite run_bind, (py_or_getattr dt d0) by done.
  cbv beta iota. rewrite run_bind, (py_or_getattr m m0) by done.
  cbv beta iota. rewrite run_bind, (getattr_attr _ _ _ (VStr nm)) by done.
  reflexivity.
Qed.

(** What a returning [__init__] has run. *)
Lemma init_Ok_inv (self : loc) (ch sr u dt m : value) (h h' : heap) :
  Channel.__init__ self ch sr u dt m h = (Ok (), h') →
  ∃ ch' sr' u' m' h0 h1 h2 h3 h4,
    Channel.name_setter self ch' h0 = (Ok (), h1)
    ∧ Channel.sample_rate_setter self sr' h1 = (Ok (), h2)
    ∧ Channel.unit_setter self u' h2 = (Ok (), h3)
    ∧ Channel.dtype_setter self Channel.type h3 = (Ok (), h4)
    ∧ Channel.model_setter self m' h4 = (Ok (), h')
    ∧ (isinstance_Channel ch = false →
       ch' = ch ∧ sr' = sr ∧ u' = u ∧ m' = m ∧ h0 = h).
Proof.
  unfold Channel.__init__. intros E.
  apply bind_Ok_inv in E as ([[[[ch' sr'] u'] dt'] m'] & h0 & E0 & E).
  apply bind_Ok_inv in E as ([] & h1 & E1 & E).
  apply bind_Ok_inv in E as ([] & h2 & E2 & E).
  apply bind_Ok_inv in E as ([] & h3 & E3 & E).
  apply bind_Ok_inv in E as ([] & h4 & E4 & E).
  exists ch', sr', u', m', h0, h1, h2, h3, h4. repeat split; try done;
    destruct ch; try discriminate; by inversion E0.
Qed.

Lemma dtype_setter_Ok (self : loc) (t : value) (h h' : heap) :
  Channel.dtype_setter self t h = (Ok (), h') →
  isinstance_type t = true ∧ attr h' self "_dtype" = Some t.
Proof.
  unfold Channel.dtype_setter. destruct (isinstance_type t); [|discriminate].
  cbn [negb]. intros E. split; [done|].
  pose proof (attr_setattr self "_dtype" t h self "_dtype") as Ha.
  rewrite E, decide_True in Ha by done. exact Ha.
Qed.

Lemma new_Ok_inv (ch sr u dt m : value) (h h' : heap) (r : value) :
  Channel.new ch sr u dt m h = (Ok r, h') →
  r = VRef (fresh (dom h))
  ∧ Channel.__init__ (fresh (dom h)) ch sr u dt m (<[fresh (dom h) := ∅]> h) = (Ok (), h').
Proof.
  unfold Channel.new. intros E.
  apply bind_Ok_inv in E as ([] & h1 & E1 & E). by inversion E; subst.
Qed.

(** After a construction that returns, [dtype] is the builtin [type]. *)
Lemma new_dtype (ch sr u dt m : value) (h h' : heap) (r : value) :
  Channel.new ch sr u dt m h = (Ok r, h') →
  ∃ self, r = VRef self ∧ attr h' self "_dtype" = Some Channel.type.
Proof.
  intros [-> E]%new_Ok_inv. eexists. split; [done|].
  apply init_Ok_inv in E
    as (ch' & sr' & u' & m' & h0 & h1 & h2 & h3 & h4 & _ & _ & _ & Ed & Em & _).
  apply dtype_setter_Ok in Ed as [_ <-].
  eapply writes_model_setter; [exact Em|].
  intros [_ [=]%list_elem_of_singleton].
Qed.

Lemma py_or_getattr_read_only (x : value) (l : loc) (a : string) (h h' : heap) r :
  py_or x (getattr l a) h = (r, h') → h' = h.
Proof.
  unfold py_or, getattr. destruct (truthy x); [by intros [= _ <-]|].
  destruct (h !! l ≫= _); by intros [= _ <-].
Qed.

(** The [dtype] argument changes nothing, provided a [Channel] given as
    [ch] has a [dtype] to read. *)
Lemma new_dtype_irrelevant (ch sr u dt dt' m : value) (h : heap) :
  (∀ src, ch = VRef src → is_Some (attr h src "_dtype")) →
  Channel.new ch sr u dt m h = Channel.new ch sr u dt' m h.
Proof.
  intros Hsrc. unfold Channel.new. rewrite !(run_bind (Channel.__init__ _ _ _ _ _ _)).
  enough (Channel.__init__ (fresh (dom h)) ch sr u dt m (<[fresh (dom h):=∅]> h)
          = Channel.__init__ (fresh (dom h)) ch sr u dt' m (<[fresh (dom h):=∅]> h))
    as -> by done.
  unfold Channel.__init__.
  destruct ch; try reflexivity.
  destruct (Hsrc l eq_refl) as [d0 Hd].
  rewrite <- (attr_alloc h (fresh (dom h)) l "_dtype" (fresh_unused h)) in Hd.
  unfold Channel.sample_rate, Channel.unit, Channel.dtype, Channel.model, Channel.name.
  rewrite !(run_bind (_ ≫= _)). rewrite !(run_bind (py_or sr _)).
  destruct (py_or sr _ _) as [[sr'|e] h1] eqn:E1; [|done].
  apply py_or_getattr_read_only in E1 as ->.
  rewrite !(run_bind (py_or u _)).
  destruct (py_or u _ _) as [[u'|e] h1] eqn:E2; [|done].
  apply py_or_getattr_read_only in E2 as ->.
  rewrite !(run_bind (py_or _ (getattr l "_dtype"))).
  rewrite (py_or_getattr dt d0), (py_or_getattr dt' d0) by done.
  rewrite !(run_bind (py_or m _)).
  destruct (py_or m _ _) as [[m'|e] h1] eqn:E3; [|done].
  rewrite !(run_bind (getattr _ _)).
  destruct (getattr _ _ _) as [[ch'|e] h2] eqn:E4; done.
Qed.

(** C10: whatever [dtype] the caller gives, a construction that returns
    leaves the new [Channel] with the builtin [type] as its [dtype], and any
    other [dtype] argument gives the same result; so a copy never takes the
    [dtype] of its source. *)
Theorem constructor_discards_dtype (ch sr u dt m : value) (h h' : heap) (r : value) :
  Channel.new ch sr u dt m h = (Ok r, h') →
  (∃ self, r = VRef self ∧ attr h' self "_dtype" = Some Channel.type)
  ∧ (∀ dt', (∀ src, ch = VRef src → is_Some (attr h src "_dtype")) →
            Channel.new ch sr u dt' m h = (Ok r, h')).
Proof.
  intros E. split; [by eapply new_dtype|].
  intros dt' Hsrc. by rewrite <- (new_dtype_irrelevant ch sr u dt dt' m h Hsrc).
Qed.

End Constructor.

(** ** Copying a [Channel] *)

Section Copy.
Context `{F : Foreign} `{!Astropy} `{!Nds}.

Lemma lower_ascii_idem (c : ascii) : lower_ascii (lower_ascii c) = lower_ascii c.
Proof.
  unfold lower_ascii. destruct (in_range 65 90 c) eqn:Hc; [|by rewrite Hc].
  apply in_range_true in Hc.
  assert (Hn : N_of_ascii (ascii_of_N (N_of_ascii c + 32)) = (N_of_ascii c + 32)%N).
  { apply N_ascii_embedding. lia. }
  destruct (in_range 65 90 (ascii_of_N (N_of_ascii c + 32))) eqn:Hc'; [|done].
  apply in_range_true in Hc'. rewrite Hn in Hc'. lia.
Qed.

Lemma lower_idem (s : string) : lower (lower s) = lower s.
Proof. induction s as [|c s IH]; simpl; [done|]. by rewrite lower_ascii_idem, IH. Qed.

Lemma truthy_lower (s : string) : truthy (VStr (lower s)) = truthy (VStr s).
Proof. by destruct s. Qed.

(** What the model setter stores when it returns. *)
Lemma model_setter_Ok (self : loc) (mdl : value) (h h' : heap) :
  Channel.model_setter self mdl h = (Ok (), h') →
  (truthy mdl = false ∧ attr h' self "_model" = Some mdl)
  ∨ (∃ s, mdl = VStr s ∧ s ≠ "" ∧ attr h' self "_model" = Some (VStr (lower s))).
Proof.
  assert (Hset : ∀ v, setattr self "_model" v h = (Ok (), h') →
                      attr h' self "_model" = Some v).
  { intros v E. pose proof (attr_setattr self "_model" v h self "_model") as Ha.
    rewrite E, decide_True in Ha by done. exact Ha. }
  unfold Channel.model_setter, py_and. destruct (truthy mdl) eqn:Ht.
  - intros E. apply bind_Ok_inv in E as (a & h1 & El & E).
    destruct mdl; try discriminate. injection El as <- <-. right.
    apply bind_Ok_inv in E as (v & h1 & Ev & E).
    unfold py_or in Ev. rewrite truthy_lower, Ht in Ev. injection Ev as <- <-.
    exists s. split; [done|]. split; [by intros ->|]. by apply Hset.
  - intros E. left. apply bind_Ok_inv in E as (a & h1 & [= <- <-] & E).
    apply bind_Ok_inv in E as (v & h1 & Ev & E).
    unfold py_or in Ev. rewrite Ht in Ev. injection Ev as <- <-.
    split; [done|]. by apply Hset.
Qed.

(** The tail of [__init__] leaves the name alone. *)
Lemma new_name (nm : string) (sr u dt m : value) (h h' : heap) (r : value) :
  Channel.new (VStr nm) sr u dt m h = (Ok r, h') →
  attr h' (fresh (dom h)) "_name" = Some (VStr nm).
Proof.
  intros [-> E]%new_Ok_inv.
  apply init_Ok_inv in E
    as (ch' & sr' & u' & m' & h0 & h1 & h2 & h3 & h4 & En & Es & Eu & Ed & Em & Heq).
  destruct (Heq eq_refl) as (-> & -> & -> & -> & ->).
  assert (Hne : ∀ a, a ≠ "_name" → ¬ touches (fresh (dom h)) [a] (fresh (dom h)) "_name").
  { intros a Ha [_ Hin%list_elem_of_singleton]. by subst a. }
  rewrite (writes_model_setter _ _ _ _ _ Em) by by apply Hne.
  rewrite (writes_dtype_setter _ _ _ _ _ Ed) by by apply Hne.
  rewrite (writes_unit_setter _ _ _ _ _ Eu) by by apply Hne.
  rewrite (writes_sample_rate_setter _ _ _ _ _ Es) by by apply Hne.
  destruct (parse_pure (VStr nm)) as [pr Hpr].
  rewrite (name_setter_run _ _ (VStr nm) pr) in En by done.
  destruct pr as [t|e]; [|discriminate]. injection En as <-.
  rewrite attr_assign_name, decide_True by done. reflexivity.
Qed.

Lemma new_model (ch sr u dt m : value) (h h' : heap) (r : value) :
  Channel.new ch sr u dt m h = (Ok r, h') → isinstance_Channel ch = false →
  (truthy m = false ∧ attr h' (fresh (dom h)) "_model" = Some m)
  ∨ (∃ s, m = VStr s ∧ s ≠ "" ∧ attr h' (fresh (dom h)) "_model" = Some (VStr (lower s))).
Proof.
  intros [-> E]%new_Ok_inv Hch.
  apply init_Ok_inv in E
    as (ch' & sr' & u' & m' & h0 & h1 & h2 & h3 & h4 & _ & _ & _ & _ & Em & Heq).
  destruct (Heq Hch) as (_ & _ & _ & -> & _).
  by apply model_setter_Ok in Em.
Qed.

(** C5, as the code has it: copying a fully constructed [Channel] is
    constructing from its name, with each of [sample_rate], [unit] and [model]
    taken from the source when the argument has a false truth value and kept
    when it has a true one.  When the copy returns, it is a new object whose
    name is the source's; an argument [model] with a false truth value makes
    its [model] the source's, and a non-empty string is stored in lower
    case, whatever the source's is.  Nothing is said of [dtype]. *)
Theorem copy_constructor_merges (src : loc) (sr u dt m : value) (h : heap)
    (nm : string) (r0 u0 d0 m0 : value) :
  attr h src "_name" = Some (VStr nm) →
  attr h src "_sample_rate" = Some r0 →
  attr h src "_unit" = Some u0 →
  attr h src "_dtype" = Some d0 →
  attr h src "_model" = Some m0 →
  Channel.new (VRef src) sr u dt m h
  = Channel.new (VStr nm) (pick sr r0) (pick u u0) dt (pick m m0) h
  ∧ ∀ r h', Channel.new (VRef src) sr u dt m h = (Ok r, h') →
      ∃ self, r = VRef self ∧ self ≠ src
        ∧ attr h' self "_name" = Some (VStr nm)
        ∧ (truthy m = false →
           truthy m0 = false ∨ (∃ s, m0 = VStr (lower s)) →
           attr h' self "_model" = Some m0)
        ∧ (∀ s, m = VStr s → s ≠ "" →
           attr h' self "_model" = Some (VStr (lower s))).
Proof.
  intros Hn Hr Hu Hd Hm.
  assert (Hfresh : fresh (dom h) ≠ src).
  { intros <-. unfold attr in Hn. by rewrite fresh_unused in Hn. }
  assert (Heq : Channel.new (VRef src) sr u dt m h
                = Channel.new (VStr nm) (pick sr r0) (pick u u0) dt (pick m m0) h).
  { unfold Channel.new. rewrite !(run_bind (Channel.__init__ _ _ _ _ _ _)).
    rewrite (init_copy _ src sr u dt m _ nm r0 u0 d0 m0);
      [done|by rewrite attr_alloc by apply fresh_unused..]. }
  split; [exact Heq|].
  intros r h' E. rewrite Heq in E.
  pose proof (new_Ok_inv _ _ _ _ _ _ _ _ E) as [-> _].
  exists (fresh (dom h)). split; [done|]. split; [done|].
  split; [by eapply new_name|].
  apply new_model in E as [[Ht Ha]|(s & Hs & Hne & Ha)]; [| |done].
  - split.
    + intros Hm' _. unfold pick in Ha. by rewrite Hm' in Ha.
    + intros s -> Hs. unfold pick in Ht.
      rewrite (truthy_nonempty s Hs) in Ht. by rewrite (truthy_nonempty s Hs) in Ht.
  - split.
    + intros Hm' Hm0. unfold pick in Hs. rewrite Hm' in Hs. subst m0.
      destruct Hm0 as [Hf|[s' [= ->]]].
      * by rewrite (truthy_nonempty s Hne) in Hf.
      * by rewrite lower_idem in Ha.
    + intros s' -> Hs'. unfold pick in Hs.
      rewrite (truthy_nonempty s' Hs') in Hs. by injection Hs as ->.
Qed.

End Copy.

(** ** The [dtype] setter and [fetch] *)

Section DtypeAndFetch.
Context `{F : Foreign} `{!Astropy} `{!Nds}.

(** The guard of the setter: a value that is no class is refused, and the
    object is left as it was. *)
Lemma dtype_setter_rejects (self : loc) (v : value) (h : heap) :
  isinstance_type v = false →
  Channel.dtype_setter self v h = (Raise TypeError, h).
Proof. intros Hv. unfold Channel.dtype_setter. by rewrite Hv. Qed.


(** With host and port both given the directory is consulted all the same,
    and an observatory it does not hold makes the call raise [KeyError]. *)
Lemma fetch_consults_directory (self : loc) (start end_ host port ifo : value) (h : heap) :
  truthy port = true →
  attr h self "ifo" = Some ifo →
  DEFAULT_HOSTS ifo = None →
  Channel.fetch self start end_ host port h = (Raise KeyError, h).
Proof.
  intros Hport Hifo Hdir. unfold Channel.fetch. rewrite Hport, orb_true_r.
  rewrite run_bind, run_bind, (getattr_attr _ _ _ ifo) by done.
  cbv beta iota. by rewrite run_bind, Hdir.
Qed.

(** C8: with a host given and no port, [fetch] looks nothing up: the
    connection is opened with the host and with the port as the caller left
    it, not with the port of the directory. *)
Theorem fetch_skips_directory (self : loc) (start end_ host port : value) (h : heap) :
  truthy host = true →
  truthy port = false →
  Channel.fetch self start end_ host port h
  = (conn ← lift (NDSConnection host port);
     nm ← Channel.name self;
     lift (connection_fetch conn start end_ nm)) h.
Proof.
  intros Hhost Hport. unfold Channel.fetch. by rewrite Hhost, Hport.
Qed.

End DtypeAndFetch.

(** ** Further properties *)

Section Further.
Context `{F : Foreign} `{!Astropy} `{!Nds}.

(** Every token that a split cuts off is free of matches; only the rest
    behind the last cut may hold one. *)
Lemma split_scan_cut_free k s n :
  ∀ i u, (i < n)%nat →
    ((split_scan [k] s 0 n).1 :: (split_scan [k] s 0 n).2) !! i = Some u →
    Forall (λ c, cclass_match k c = false) (list_ascii_of_string u).
Proof.
  revert n. induction s as [|c s IH]; intros n i u Hi.
  - destruct i as [|i]; simpl; [|done]. by intros [= <-].
  - destruct n as [|n]; [lia|]. cbn [split_scan].
    change (negb (bool_decide ([k] = []))) with true. cbn [andb match_prefix].
    rewrite andb_true_r. destruct (cclass_match k c) eqn:Hc.
    + destruct i as [|i]; simpl; [by intros [= <-]|].
      specialize (IH n i u). destruct (split_scan [k] s 0 n) as [t ts].
      apply IH. lia.
    + pose proof (IH (S n) 0%nat) as IH0. specialize (IH (S n) i u).
      destruct (split_scan [k] s 0 (S n)) as [t ts].
      destruct i as [|i]; simpl.
      * intros [= <-]. simpl. constructor; [done|]. apply IH0; [lia|done].
      * intros Hu. apply IH; [lia|done].
Qed.

Lemma signal_tag_free (rem g : string) :
  tag (split_tokens _re_cchar rem 3) 2 = VStr g → sep_free g.
Proof.
  unfold tag, split_tokens, _re_cchar.
  pose proof (split_scan_cut_free (CSet ["-"; "_"]%char) rem 3 2) as Hfree.
  destruct (split_scan _ rem 0 3) as [t ts]. cbn [fst snd] in Hfree.
  destruct ((t :: ts) !! 2%nat) as [u|] eqn:Hu; cbn [from_option]; [|done].
  intros [= ->]. specialize (Hfree g ltac:(lia) eq_refl).
  eapply Forall_impl; [exact Hfree|].
  intros c Hc Hsep. apply sep_match in Hsep. congruence.
Qed.

(** X3: the signal never holds a separator: what stands behind the third
    separator of the remainder is no part of it. *)
Theorem signal_has_no_separator (s g : string) (h : heap) (ifo sys sub : value) :
  parse_channel_name (VStr s) h = (Ok (ifo, sys, sub, VStr g), h) →
  sep_free g.
Proof.
  destruct (decide (s = "")) as [->|Hs].
  { by rewrite parse_falsy. }
  destruct (match_prefix _re_ifo s) eqn:Hm.
  - apply match_ifo in Hm as (a & d & rest & -> & Ha & Hd).
    rewrite parse_with_ifo by done. unfold decompose.
    intros [= _ _ _ E]. by eapply signal_tag_free.
  - rewrite parse_without_ifo by done. unfold decompose.
    intros [= _ _ _ E]. by eapply signal_tag_free.
Qed.

(** X1: a value that is no class is refused by the [dtype] setter, which
    raises [TypeError] and leaves the heap as it was. *)
Theorem dtype_setter_guard (self : loc) (v : value) (h : heap) :
  isinstance_type v = false →
  Channel.dtype_setter self v h = (Raise TypeError, h).
Proof. apply dtype_setter_rejects. Qed.

(** X2: with no host given, [fetch] takes the host from the directory entry
    of the channel's observatory, and the port too unless the caller gave
    one. *)
Theorem fetch_resolves_host (self : loc) (start end_ host port ifo dhost dport : value)
    (h : heap) :
  truthy host = false →
  attr h self "ifo" = Some ifo →
  DEFAULT_HOSTS ifo = Some (dhost, dport) →
  Channel.fetch self start end_ host port h
  = (conn ← lift (NDSConnection dhost (pick port dport));
     nm ← Channel.name self;
     lift (connection_fetch conn start end_ nm)) h.
Proof.
  intros Hhost Hifo Hdir. unfold Channel.fetch. rewrite Hhost. cbn [negb orb].
  rewrite (run_bind (_ ≫= _)), run_bind, (getattr_attr _ _ _ ifo) by done.
  cbv beta iota. rewrite run_bind, Hdir. cbn [ret]. cbv beta iota.
  unfold py_or, pick. rewrite Hhost. rewrite run_bind. cbn [ret]. cbv beta iota.
  rewrite run_bind. destruct (truthy port); reflexivity.
Qed.

End Further.

(** ** The metadata setters *)

Section Setters.
Context `{F : Foreign} `{!Astropy} `{!Nds}.

Lemma setattr_Ok (l : loc) (a : string) (v : value) (h h' : heap) r :
  setattr l a v h = (r, h') → r = Ok () ∧ attr h' l a = Some v.
Proof.
  intros E. pose proof (attr_setattr l a v h l a) as Ha.
  rewrite E, decide_True in Ha by done. split; [|exact Ha].
  unfold setattr in E. by inversion E.
Qed.

(** A metadata setter that raises has written nothing. *)
Lemma sample_rate_setter_raise (self : loc) (rate : value) (h h' : heap) e :
  Channel.sample_rate_setter self rate h = (Raise e, h') → h' = h.
Proof.
  unfold Channel.sample_rate_setter.
  destruct (isinstance_Unit rate); [by intros [[=] _]%setattr_Ok|].
  destruct rate; try by intros [[=] _]%setattr_Ok.
  all: rewrite run_bind; unfold lift; destruct (float_ _);
    [by intros [[=] _]%setattr_Ok | by intros [= _ <-]].
Qed.

Lemma unit_setter_raise (self : loc) (u : value) (h h' : heap) e :
  Channel.unit_setter self u h = (Raise e, h') → h' = h.
Proof.
  unfold Channel.unit_setter.
  destruct u; try by intros [[=] _]%setattr_Ok.
  all: rewrite run_bind; unfold lift; destruct (Unit_ _);
    [by intros [[=] _]%setattr_Ok | by intros [= _ <-]].
Qed.

Lemma dtype_setter_raise (self : loc) (t : value) (h h' : heap) e :
  Channel.dtype_setter self t h = (Raise e, h') → h' = h.
Proof.
  unfold Channel.dtype_setter. destruct (isinstance_type t); simpl.
  - by intros [[=] _]%setattr_Ok.
  - by intros [= _ <-].
Qed.

Lemma model_setter_raise (self : loc) (mdl : value) (h h' : heap) e :
  Channel.model_setter self mdl h = (Raise e, h') →
  h' = h ∧ truthy mdl = true ∧ ∀ s, mdl ≠ VStr s.
Proof.
  unfold Channel.model_setter, py_and, py_or.
  destruct (truthy mdl) eqn:Ht.
  - destruct mdl; simpl; try (intros [= _ <-]; repeat split; congruence).
    rewrite run_bind. cbn [lower_method ret]. cbv beta iota.
    rewrite run_bind, truthy_lower, Ht. cbn [ret]. by intros [[=] _]%setattr_Ok.
  - rewrite run_bind. cbn [ret]. cbv beta iota. rewrite run_bind, Ht.
    cbn [ret]. by intros [[=] _]%setattr_Ok.
Qed.

Lemma name_setter_raise (self : loc) (n : value) (h h' : heap) e :
  name_inv h → Channel.name_setter self n h = (Raise e, h') → h' = h.
Proof.
  intros Hinv E.
  destruct (Channel.str_ n h) as [[v|e'] h1] eqn:Hstr;
    pose proof (str_read_only _ _ _ _ Hstr) as ->.
  - destruct (str_is_string _ _ _ _ Hinv Hstr) as [s ->].
    destruct (parse_str_total s) as [t Ht].
    by rewrite (name_setter_run self n (VStr s) (Ok t) h Hstr Ht) in E.
  - unfold Channel.name_setter in E. rewrite run_bind, Hstr in E. by inversion E.
Qed.

(** What the metadata setters store when they return. *)
Lemma sample_rate_setter_Ok (self : loc) (rate : value) (h h' : heap) :
  Channel.sample_rate_setter self rate h = (Ok (), h') →
  ∃ v, attr h' self "_sample_rate" = Some v ∧ rate_ok v.
Proof.
  unfold Channel.sample_rate_setter, rate_ok.
  destruct (isinstance_Unit rate) eqn:Hu.
  { destruct rate; try discriminate. intros [_ ?]%setattr_Ok. eauto 6. }
  destruct rate; try discriminate; try (intros [_ ?]%setattr_Ok; by eauto).
  all: intros (? & ? & _ & [_ ?]%setattr_Ok)%bind_Ok_inv; eauto 6.
Qed.

Lemma unit_setter_Ok (self : loc) (u : value) (h h' : heap) :
  Channel.unit_setter self u h = (Ok (), h') →
  ∃ v, attr h' self "_unit" = Some v ∧ unit_ok v.
Proof.
  unfold Channel.unit_setter, unit_ok.
  destruct u; try (intros [_ ?]%setattr_Ok; by eauto).
  all: intros (? & ? & _ & [_ ?]%setattr_Ok)%bind_Ok_inv; eauto 6.
Qed.

Lemma model_setter_stored (self : loc) (mdl : value) (h h' : heap) :
  Channel.model_setter self mdl h = (Ok (), h') →
  attr h' self "_model" = Some (stored_model mdl) ∧ model_ok (stored_model mdl).
Proof.
  intros [[Ht Ha]|(s & -> & Hs & Ha)]%model_setter_Ok.
  - destruct mdl; simpl; try (split; [done|by left]).
    assert (s = "") as ->.
    { destruct s; [done|discriminate]. }
    split; [done|by left].
  - split; [done|]. right. exists (lower s). by rewrite lower_idem.
Qed.

End Setters.

(** ** The shapes of the metadata *)

Section Fields.
Context `{F : Foreign} `{!Astropy} `{!Nds}.

Lemma attr_inv_frame {A} (a : string) (P : value → Prop) S (m : M A) :
  writes S m → (∀ l b, S l b → b ≠ a) → preserves (attr_inv a P) m.
Proof.
  intros Hm HS h r h' Hinv E l v Hv. apply (Hinv l).
  rewrite <- Hv. symmetry. eapply Hm; [exact E|].
  intros HSl. by apply (HS l a).
Qed.

(** A setter of the attribute [b] keeps the shape of [a]: it is another
    attribute, or what the setter stores has the shape. *)
Lemma setter_preserves (a b : string) (P : value → Prop) (self : loc) (m : M ()) :
  writes (touches self [b]) m →
  (b = a → ∀ h h', m h = (Ok (), h') → ∃ v, attr h' self a = Some v ∧ P v) →
  (∀ h h' e, m h = (Raise e, h') → h' = h) →
  preserves (attr_inv a P) m.
Proof.
  intros Hw Hok Hraise h r h' Hinv E.
  destruct r as [[]|e]; [|by rewrite (Hraise _ _ _ E)].
  intros l v Hv.
  destruct (decide (l = self ∧ b = a)) as [[-> ->]|Hne].
  - destruct (Hok eq_refl _ _ E) as (v' & Hv' & HP). congruence.
  - apply (Hinv l). rewrite <- Hv. symmetry. eapply Hw; [exact E|].
    intros [-> ->%list_elem_of_singleton]. by apply Hne.
Qed.

Lemma preserves_fields {A} (m : M A) :
  preserves (attr_inv "_sample_rate" rate_ok) m →
  preserves (attr_inv "_unit" unit_ok) m →
  preserves (attr_inv "_dtype" dtype_ok) m →
  preserves (attr_inv "_model" model_ok) m →
  preserves fields_inv m.
Proof.
  intros H1 H2 H3 H4 h r h' (I1 & I2 & I3 & I4) E.
  repeat split; [eapply H1|eapply H2|eapply H3|eapply H4]; eauto.
Qed.

Lemma fields_sample_rate_setter (self : loc) (rate : value) :
  preserves fields_inv (Channel.sample_rate_setter self rate).
Proof.
  apply preserves_fields;
    (eapply setter_preserves;
       [apply writes_sample_rate_setter| |apply sample_rate_setter_raise]);
    try discriminate.
  intros _ h h'. apply sample_rate_setter_Ok.
Qed.

Lemma fields_unit_setter (self : loc) (u : value) :
  preserves fields_inv (Channel.unit_setter self u).
Proof.
  apply preserves_fields;
    (eapply setter_preserves; [apply writes_unit_setter| |apply unit_setter_raise]);
    try discriminate.
  intros _ h h'. apply unit_setter_Ok.
Qed.

Lemma fields_dtype_setter (self : loc) (t : value) :
  preserves fields_inv (Channel.dtype_setter self t).
Proof.
  apply preserves_fields;
    (eapply setter_preserves; [apply writes_dtype_setter| |apply dtype_setter_raise]);
    try discriminate.
  intros _ h h' [Ht Ha]%dtype_setter_Ok. by exists t.
Qed.

Lemma fields_model_setter (self : loc) (mdl : value) :
  preserves fields_inv (Channel.model_setter self mdl).
Proof.
  apply preserves_fields;
    (eapply setter_preserves;
       [apply writes_model_setter| |intros h h' e E; by apply model_setter_raise in E as [? _]]);
    try discriminate.
  intros _ h h' [Ha Hok]%model_setter_stored. eauto.
Qed.

Lemma fields_name_setter (self : loc) (n : value) :
  preserves fields_inv (Channel.name_setter self n).
Proof.
  apply preserves_fields;
    (eapply attr_inv_frame; [apply writes_name_setter|]);
    intros l b [_ Hb] ->;
    match goal with Hb : ?a ∈ name_attrs |- _ => assert (a ∉ name_attrs) by not_name end;
    done.
Qed.

Lemma fields_read_only {A} (m : M A) :
  writes (λ _ _, False) m → preserves fields_inv m.
Proof.
  intros Hm. apply preserves_fields; by apply (attr_inv_frame _ _ (λ _ _, False)).
Qed.

Lemma fields_init (self : loc) (ch sr u dt m : value) :
  preserves fields_inv (Channel.__init__ self ch sr u dt m).
Proof.
  unfold Channel.__init__. apply preserves_bind.
  { apply fields_read_only.
    unfold Channel.sample_rate, Channel.unit, Channel.dtype, Channel.model, Channel.name.
    frame. }
  intros [[[[ch' sr'] u'] dt'] m'].
  apply preserves_bind; [apply fields_name_setter|intros _].
  apply preserves_bind; [apply fields_sample_rate_setter|intros _].
  apply preserves_bind; [apply fields_unit_setter|intros _].
  apply preserves_bind; [apply fields_dtype_setter|intros _].
  apply fields_model_setter.
Qed.

Lemma fields_new (ch sr u dt m : value) :
  preserves fields_inv (Channel.new ch sr u dt m).
Proof.
  intros h r h' Hinv E. unfold Channel.new in E.
  eapply preserves_bind; [apply fields_init| | |exact E].
  - intros ?. apply fields_read_only, writes_ret.
  - destruct Hinv as (I1 & I2 & I3 & I4).
    repeat split; intros l v; rewrite attr_alloc by apply fresh_unused;
      [apply I1|apply I2|apply I3|apply I4].
Qed.

Lemma fields_exec (c : call) : preserves fields_inv (exec c).
Proof.
  assert (Hret : ∀ A (v : A), preserves fields_inv (ret v)).
  { intros A v. apply fields_read_only, writes_ret. }
  destruct c; simpl; (apply preserves_bind; [|intros ?; apply Hret]).
  - apply fields_new.
  - apply fields_name_setter.
  - apply fields_sample_rate_setter.
  - apply fields_unit_setter.
  - apply fields_model_setter.
  - apply fields_dtype_setter.
  - apply fields_read_only, writes_getattr.
  - apply fields_read_only, writes_repr.
  - apply fields_read_only, writes_fetch.
  - apply fields_read_only, writes_parse.
Qed.

Lemma reachable_fields_inv (h : heap) : reachable h → fields_inv h.
Proof.
  unfold reachable. intros Hr.
  eapply (rtc_ind_r (λ h, fields_inv h)); [| |exact Hr].
  - repeat split; intros l v; unfold attr; by rewrite lookup_empty.
  - intros h1 h2 _ (c & r & E) IH. eapply fields_exec; eauto.
Qed.

(** X4: in every heap a program can reach, whatever object has the
    attribute: a sample rate is [None], a unit or a quantity in Hertz; a unit
    is [None] or a unit; a [dtype] is a class; a model has a false truth
    value or is a string in lower case. *)
Theorem metadata_shapes (h : heap) (l : loc) :
  reachable h →
  (∀ v, attr h l "_sample_rate" = Some v →
        v = VNone ∨ (∃ u, v = VUnit u) ∨ (∃ x, v = VQuantity x Hertz))
  ∧ (∀ v, attr h l "_unit" = Some v → v = VNone ∨ ∃ u, v = VUnit u)
  ∧ (∀ v, attr h l "_dtype" = Some v → ∃ t, v = VType t)
  ∧ (∀ v, attr h l "_model" = Some v →
          truthy v = false ∨ ∃ s, v = VStr s ∧ lower s = s).
Proof.
  intros (I1 & I2 & I3 & I4)%reachable_fields_inv.
  repeat split; [apply I1|apply I2| |apply I4].
  intros v Hv. specialize (I3 l v Hv). destruct v; try discriminate. eauto.
Qed.

End Fields.

(** ** Calls that fail, and calls that only read *)

Section Failing.
Context `{F : Foreign} `{!Astropy} `{!Nds}.

Lemma keeps_pure {A} (m : M A) : pure m → keeps_heap m.
Proof. intros [r0 Hm] h r h' E. rewrite Hm in E. by inversion E. Qed.

Lemma keeps_getattr (l : loc) (a : string) : keeps_heap (getattr l a).
Proof.
  intros h r h' E. unfold getattr in E. destruct (h !! l ≫= _); by inversion E.
Qed.

Lemma keeps_bind {A B} (m : M A) (k : A → M B) :
  keeps_heap m → (∀ a, keeps_heap (k a)) → keeps_heap (m ≫= k).
Proof.
  intros Hm Hk h r h' E. rewrite run_bind in E.
  destruct (m h) as [[x|e] h1] eqn:Em.
  - rewrite (Hk x _ _ _ E). eapply Hm; eauto.
  - inversion E; subst. eapply Hm; eauto.
Qed.

Lemma keeps_py_or (a : value) (b : M value) : keeps_heap b → keeps_heap (py_or a b).
Proof.
  intros Hb. unfold py_or. destruct (truthy a); [apply keeps_pure, pure_ret|done].
Qed.

Lemma keeps_str (v : value) : keeps_heap (Channel.str_ v).
Proof. intros h r h'. apply str_read_only. Qed.

Lemma keeps_repr (self : loc) : keeps_heap (Channel.__repr__ self).
Proof.
  unfold Channel.__repr__. apply keeps_bind; [apply keeps_getattr|].
  intros []; apply keeps_pure; apply pure_ret || apply pure_raise.
Qed.

Lemma keeps_tex_name (self : loc) : keeps_heap (Channel.tex_name self).
Proof.
  unfold Channel.tex_name. apply keeps_bind; [apply keeps_str|].
  intros []; apply keeps_pure; apply pure_ret || apply pure_raise.
Qed.

Lemma keeps_fetch (self : loc) (s e host port : value) :
  keeps_heap (Channel.fetch self s e host port).
Proof.
  unfold Channel.fetch. apply keeps_bind.
  { destruct (_ || _); [|apply keeps_pure, pure_ret].
    apply keeps_bind; [apply keeps_getattr|intros ifo].
    apply keeps_bind.
    { destruct (DEFAULT_HOSTS ifo); apply keeps_pure; apply pure_ret || apply pure_raise. }
    intros [dhost dport].
    apply keeps_bind; [apply keeps_py_or, keeps_pure, pure_ret|intros ?].
    apply keeps_bind; [apply keeps_py_or, keeps_pure, pure_ret|intros ?].
    apply keeps_pure, pure_ret. }
  intros [host' port'].
  apply keeps_bind; [apply keeps_pure, pure_lift|intros conn].
  apply keeps_bind; [apply keeps_getattr|intros nm].
  apply keeps_pure, pure_lift.
Qed.

(** X5: in a heap a program can reach, a call that raises leaves the heap as
    it was, unless it is a construction: no setter stops half way. *)
Theorem failed_call_keeps_heap (c : call) (h h' : heap) (e : exn) :
  reachable h →
  (∀ ch sr u dt m, c ≠ CNew ch sr u dt m) →
  exec c h = (Raise e, h') →
  h' = h.
Proof.
  intros Hr Hc E.
  assert (Hret : ∀ (m : M ()) , (∀ h1, m h = (Raise e, h1) → h1 = h) →
            (m ≫= λ _, ret ([] : list value)) h = (Raise e, h') → h' = h).
  { intros m Hm. rewrite run_bind. destruct (m h) as [[[]|e'] h1] eqn:Em; [done|].
    intros [= <- <-]. by apply Hm. }
  assert (Hkeep : ∀ A (m : M A) (k : A → list value),
            keeps_heap m → (m ≫= λ v, ret (k v)) h = (Raise e, h') → h' = h).
  { intros A m k Hm E'. eapply (keeps_bind m); [exact Hm| |exact E'].
    intros a. apply keeps_pure, pure_ret. }
  destruct c; simpl in E.
  - by destruct (Hc ch sample_rate unit dtype model).
  - apply (Hret _ (λ h1 E1, name_setter_raise _ _ _ _ _
                              (reachable_name_inv h Hr) E1) E).
  - apply (Hret _ (λ h1 E1, sample_rate_setter_raise _ _ _ _ _ E1) E).
  - apply (Hret _ (λ h1 E1, unit_setter_raise _ _ _ _ _ E1) E).
  - apply (Hret _ (λ h1 E1, proj1 (model_setter_raise _ _ _ _ _ E1)) E).
  - apply (Hret _ (λ h1 E1, dtype_setter_raise _ _ _ _ _ E1) E).
  - apply (Hkeep _ _ (λ v, [v]) (keeps_getattr self "_name") E).
  - apply (Hkeep _ _ (λ v, [v]) (keeps_repr self) E).
  - apply (Hkeep _ _ (λ v, [v]) (keeps_fetch self start end_ host port) E).
  - apply (Hkeep _ _ tuple4 (keeps_pure _ (parse_pure name)) E).
Qed.

(** X6: a construction, whether it returns or raises, changes no attribute
    of an object that was there before; a copy leaves its source alone. *)
Theorem construction_keeps_objects (ch sr u dt m : value) (h h' : heap) (r : result value)
    (l : loc) (a : string) :
  Channel.new ch sr u dt m h = (r, h') →
  is_Some (h !! l) →
  attr h' l a = attr h l a.
Proof.
  intros E [o Ho]. eapply new_frame; [exact E|].
  intros ->. by rewrite fresh_unused in Ho.
Qed.

End Failing.

(** ** Constructing from a name, and assigning a name again *)

Section FromName.
Context `{F : Foreign} `{!Astropy} `{!Nds}.

Lemma attr_setattr_same (l : loc) (a : string) (v : value) (h : heap) :
  attr (setattr l a v h).2 l a = Some v.
Proof. rewrite attr_setattr. by rewrite decide_True. Qed.

Lemma attr_setattr_other (l l' : loc) (a a' : string) (v : value) (h : heap) :
  a' ≠ a → attr (setattr l a v h).2 l' a' = attr h l' a'.
Proof. intros Ha. rewrite attr_setattr. rewrite decide_False; [done|]. by intros [_ ?]. Qed.

(** Writing what is there already changes nothing. *)
Lemma setattr_id (l : loc) (a : string) (v : value) (h : heap) :
  attr h l a = Some v → (setattr l a v h).2 = h.
Proof.
  unfold attr, setattr. simpl. destruct (h !! l) as [o|] eqn:Ho; [|done].
  simpl. intros Hv. rewrite (insert_id o a v Hv). by apply insert_id.
Qed.

Lemma model_setter_run (self : loc) (mdl : value) (h : heap) :
  truthy mdl = false ∨ (∃ s, mdl = VStr s) →
  Channel.model_setter self mdl h
  = (Ok (), (setattr self "_model" (stored_model mdl) h).2).
Proof.
  intros Hm. unfold Channel.model_setter, py_and, py_or.
  destruct (truthy mdl) eqn:Ht.
  - destruct Hm as [|[s ->]]; [discriminate|].
    rewrite run_bind. cbn [lower_method ret]. cbv beta iota.
    rewrite run_bind, truthy_lower, Ht. reflexivity.
  - rewrite run_bind. cbn [ret]. cbv beta iota. rewrite run_bind, Ht. cbn [ret].
    cbv beta iota. destruct mdl; try reflexivity.
    destruct s; [reflexivity|discriminate].
Qed.

(** The run of a construction from a name that calls nothing outside. *)
Lemma new_from_name (nm : string) (dt m : value) (h : heap) :
  truthy m = false ∨ (∃ s, m = VStr s) →
  ∃ t h',
    (∀ h0, parse_channel_name (VStr nm) h0 = (Ok t, h0))
    ∧ Channel.new (VStr nm) VNone VNone dt m h = (Ok (VRef (fresh (dom h))), h')
    ∧ attr h' (fresh (dom h)) "_name" = Some (VStr nm)
    ∧ attr h' (fresh (dom h)) "ifo" = Some t.1.1.1
    ∧ attr h' (fresh (dom h)) "system" = Some t.1.1.2
    ∧ attr h' (fresh (dom h)) "subsystem" = Some t.1.2
    ∧ attr h' (fresh (dom h)) "signal" = Some t.2
    ∧ attr h' (fresh (dom h)) "_sample_rate" = Some VNone
    ∧ attr h' (fresh (dom h)) "_unit" = Some VNone
    ∧ attr h' (fresh (dom h)) "_dtype" = Some Channel.type
    ∧ attr h' (fresh (dom h)) "_model" = Some (stored_model m).
Proof.
  intros Hm. destruct (parse_str_total nm) as [t Ht].
  set (self := fresh (dom h)). set (h0 := <[self := ∅]> h).
  set (h1 := assign_name self (VStr nm) t h0).
  set (h2 := (setattr self "_sample_rate" VNone h1).2).
  set (h3 := (setattr self "_unit" VNone h2).2).
  set (h4 := (setattr self "_dtype" Channel.type h3).2).
  exists t, (setattr self "_model" (stored_model m) h4).2.
  split; [exact Ht|]. split.
  { unfold Channel.new. fold self. fold h0. rewrite run_bind.
    unfold Channel.__init__. rewrite run_bind. cbn [ret]. cbv beta iota.
    rewrite run_bind, (name_setter_run self (VStr nm) (VStr nm) (Ok t) h0 eq_refl Ht).
    cbv beta iota. fold h1. rewrite run_bind.
    change (Channel.sample_rate_setter self VNone h1) with (Ok (), h2).
    cbv beta iota. rewrite run_bind.
    change (Channel.unit_setter self VNone h2) with (Ok (), h3).
    cbv beta iota. rewrite run_bind.
    change (Channel.dtype_setter self Channel.type h3) with (Ok (), h4).
    cbv beta iota. by rewrite (model_setter_run self m h4 Hm). }
  assert (Hname : ∀ a, a ∈ name_attrs →
            attr (setattr self "_model" (stored_model m) h4).2 self a = attr h1 self a).
  { intros a Ha. unfold h4, h3, h2.
    assert (a ≠ "_model" ∧ a ≠ "_dtype" ∧ a ≠ "_unit" ∧ a ≠ "_sample_rate")
      as (? & ? & ? & ?).
    { unfold name_attrs in Ha. repeat split; intros ->;
        repeat (apply elem_of_cons in Ha as [[=]|Ha]); by apply elem_of_nil in Ha. }
    by rewrite !attr_setattr_other. }
  unfold name_attrs in Hname.
  repeat split.
  1-5: rewrite Hname by repeat constructor; unfold h1;
       rewrite attr_assign_name, decide_True by done; reflexivity.
  - unfold h4, h3, h2. rewrite !attr_setattr_other by discriminate.
    apply attr_setattr_same.
  - unfold h4, h3. rewrite !attr_setattr_other by discriminate.
    apply attr_setattr_same.
  - unfold h4. rewrite !attr_setattr_other by discriminate.
    apply attr_setattr_same.
  - apply attr_setattr_same.
Qed.


(** X7: constructing from a name string, with no sample rate and no unit and
    with a model that is a string or has a false truth value, always returns:
    the new [Channel] has the name, the components the parser gives for it,
    no sample rate, no unit, the builtin [type] as [dtype], and the model, in
    lower case when it is a string. *)
Theorem construct_from_name (nm : string) (dt m : value) (h : heap) :
  truthy m = false ∨ (∃ s, m = VStr s) →
  ∃ t h',
    (∀ h0, parse_channel_name (VStr nm) h0 = (Ok t, h0))
    ∧ Channel.new (VStr nm) VNone VNone dt m h = (Ok (VRef (fresh (dom h))), h')
    ∧ attr h' (fresh (dom h)) "_name" = Some (VStr nm)
    ∧ attr h' (fresh (dom h)) "ifo" = Some t.1.1.1
    ∧ attr h' (fresh (dom h)) "system" = Some t.1.1.2
    ∧ attr h' (fresh (dom h)) "subsystem" = Some t.1.2
    ∧ attr h' (fresh (dom h)) "signal" = Some t.2
    ∧ attr h' (fresh (dom h)) "_sample_rate" = Some VNone
    ∧ attr h' (fresh (dom h)) "_unit" = Some VNone
    ∧ attr h' (fresh (dom h)) "_dtype" = Some Channel.type
    ∧ attr h' (fresh (dom h)) "_model" = Some (stored_model m).
Proof. apply new_from_name. Qed.

Lemma stored_model_idem (m : value) : stored_model (stored_model m) = stored_model m.
Proof. destruct m; simpl; try done. by rewrite lower_idem. Qed.

(** X9: a [Channel] built from a name as above can be copied: the copy
    returns, is another object, and has the name, the components, the empty
    sample rate and unit, the [dtype] and the model of its source. *)
Theorem copy_of_plain_channel (nm : string) (dt dt' m : value) (h h1 : heap) (src : value) :
  truthy m = false ∨ (∃ s, m = VStr s) →
  Channel.new (VStr nm) VNone VNone dt m h = (Ok src, h1) →
  ∃ h2, Channel.new src VNone VNone dt' VNone h1 = (Ok (VRef (fresh (dom h1))), h2)
    ∧ src ≠ VRef (fresh (dom h1))
    ∧ ∀ a, a ∈ ["_name"; "ifo"; "system"; "subsystem"; "signal";
                "_sample_rate"; "_unit"; "_dtype"; "_model"] →
           attr h2 (fresh (dom h1)) a = attr h1 (fresh (dom h)) a.
Proof.
  intros Hm E.
  destruct (new_from_name nm dt m h Hm)
    as (t & h1' & Ht & E' & Hn & Hi & Hsy & Hsu & Hsg & Hr & Hu & Hd & Hmo).
  rewrite E in E'. injection E' as -> <-.
  assert (Hm' : truthy (stored_model m) = false ∨ ∃ s, stored_model m = VStr s).
  { destruct Hm as [Hf|[s ->]]; [|right; by eexists].
    destruct m; simpl in *; auto. right. by eexists. }
  destruct (new_from_name nm dt' (stored_model m) h1 Hm')
    as (t' & h2 & Ht' & E2 & Hn2 & Hi2 & Hsy2 & Hsu2 & Hsg2 & Hr2 & Hu2 & Hd2 & Hmo2).
  assert (t' = t) as ->.
  { specialize (Ht ∅). specialize (Ht' ∅). congruence. }
  assert (Hne : fresh (dom h1) ≠ fresh (dom h)).
  { intros Heq. unfold attr in Hn. by rewrite <- Heq, fresh_unused in Hn. }
  exists h2. split; [|split].
  - unfold Channel.new. rewrite run_bind.
    rewrite (init_copy _ (fresh (dom h)) VNone VNone dt' VNone _ nm VNone VNone
               Channel.type (stored_model m));
      try (by rewrite attr_alloc by apply fresh_unused).
    unfold Channel.new in E2. rewrite run_bind in E2. exact E2.
  - congruence.
  - rewrite stored_model_idem in Hmo2.
    intros a Ha. repeat (apply elem_of_cons in Ha as [->|Ha]); try congruence.
    by apply elem_of_nil in Ha.
Qed.

(** X8: in a heap a program can reach, assigning to a [Channel] the name it
    has, or the [Channel] itself, returns and changes nothing. *)
Theorem name_reassignment_is_identity (self : loc) (nm : value) (h : heap) :
  reachable h →
  attr h self "_name" = Some nm →
  Channel.name_setter self nm h = (Ok (), h)
  ∧ Channel.name_setter self (VRef self) h = (Ok (), h).
Proof.
  intros Hr Hnm.
  destruct (reachable_name_inv h Hr self nm Hnm) as (s & t & -> & Ht & Hi & Hsy & Hsu & Hsg).
  assert (Hid : assign_name self (VStr s) t h = h).
  { unfold assign_name.
    rewrite (setattr_id self "_name") by done.
    rewrite (setattr_id self "ifo") by done.
    rewrite (setattr_id self "system") by done.
    rewrite (setattr_id self "subsystem") by done.
    by rewrite (setattr_id self "signal"). }
  split.
  - by rewrite (name_setter_run self (VStr s) (VStr s) (Ok t) h eq_refl Ht), Hid.
  - rewrite (name_setter_run self (VRef self) (VStr s) (Ok t) h); [by rewrite Hid| |exact Ht].
    by apply getattr_attr.
Qed.

End FromName.

(** ** More on the parser *)

Section ParserShape.
Context `{F : Foreign} `{!Astropy}.

#[local] Arguments Ascii.eqb : simpl never.
#[local] Arguments in_range : simpl never.
#[local] Arguments N_of_ascii : simpl never.

Lemma tag_free (rem : string) (i : nat) (x : string) :
  (i < 3)%nat → tag (split_tokens _re_cchar rem 3) i = VStr x → sep_free x.
Proof.
  intros Hi. unfold tag, split_tokens, _re_cchar.
  pose proof (split_scan_cut_free (CSet ["-"; "_"]%char) rem 3 i) as Hfree.
  destruct (split_scan _ rem 0 3) as [t ts]. cbn [fst snd] in Hfree.
  destruct ((t :: ts) !! i) as [u|] eqn:Hu; cbn [from_option]; [|done].
  intros [= ->]. specialize (Hfree x Hi eq_refl).
  eapply Forall_impl; [exact Hfree|].
  intros c Hc Hsep. apply sep_match in Hsep. congruence.
Qed.

Lemma decompose_shape (ifo : value) (rem : string) :
  ∃ sys sub sig,
    decompose ifo rem = (ifo, VStr sys, sub, sig)
    ∧ sep_free sys
    ∧ (sub = VNone ∨ ∃ x, sub = VStr x ∧ sep_free x)
    ∧ (sig = VNone ∨ ∃ x, sig = VStr x ∧ sep_free x)
    ∧ (sub = VNone → sig = VNone).
Proof.
  pose proof (tag_free rem 0) as H0. pose proof (tag_free rem 1) as H1.
  pose proof (tag_free rem 2) as H2.
  unfold decompose.
  destruct (split_tokens_nonempty _re_cchar rem 3) as (t & ts & E).
  rewrite E in *. unfold tag in *.
  destruct ts as [|t1 [|t2 ts]]; cbn [lookup list_lookup from_option] in *.
  - exists t, VNone, VNone. split; [done|]. split; [apply H0; [lia|done]|]. auto.
  - exists t, (VStr t1), VNone. split; [done|]. split; [apply H0; [lia|done]|].
    split; [right; exists t1; split; [done|apply H1; [lia|done]]|]. auto.
  - exists t, (VStr t1), (VStr t2). split; [done|]. split; [apply H0; [lia|done]|].
    split; [right; exists t1; split; [done|apply H1; [lia|done]]|].
    split; [right; exists t2; split; [done|apply H2; [lia|done]]|]. discriminate.
Qed.

(** X11: on a non-empty name the parser returns an observatory that is
    [None] or an upper-case letter and a digit, a system that is a string,
    and a subsystem and a signal that are strings or [None], the signal only
    when there is a subsystem; none of the strings holds a separator. *)
Theorem parse_result_shape (s : string) (h : heap) :
  s ≠ "" →
  ∃ ifo sys sub sig,
    parse_channel_name (VStr s) h = (Ok (ifo, VStr sys, sub, sig), h)
    ∧ (ifo = VNone
       ∨ ∃ a d, ifo = VStr (String a (String d "")) ∧ is_upper a ∧ is_digit d)
    ∧ sep_free sys
    ∧ (sub = VNone ∨ ∃ x, sub = VStr x ∧ sep_free x)
    ∧ (sig = VNone ∨ ∃ x, sig = VStr x ∧ sep_free x)
    ∧ (sub = VNone → sig = VNone).
Proof.
  intros Hs. destruct (match_prefix _re_ifo s) eqn:Hm.
  - apply match_ifo in Hm as (a & d & rest & -> & Ha & Hd).
    destruct (decompose_shape (VStr (String a (String d ""))) rest)
      as (sys & sub & sig & E & ?).
    exists (VStr (String a (String d ""))), sys, sub, sig.
    rewrite parse_with_ifo, E by done. split; [done|]. split; [|done].
    right. by exists a, d.
  - destruct (decompose_shape VNone s) as (sys & sub & sig & E & ?).
    exists VNone, sys, sub, sig.
    rewrite parse_without_ifo, E by done. split; [done|]. split; [by left|done].
Qed.

(** Turning [-] into [_] keeps what each pattern matches. *)
Lemma underscored_char_sep (c : ascii) :
  cclass_match (CSet ["-"; "_"]%char) (if Ascii.eqb c "-" then "_"%char else c)
  = cclass_match (CSet ["-"; "_"]%char) c.
Proof.
  destruct (Ascii.eqb c "-") eqn:Hc; [|done].
  apply Ascii.eqb_eq in Hc as ->. reflexivity.
Qed.

Lemma underscored_match_ifo (s : string) :
  match_prefix _re_ifo (underscored s) = match_prefix _re_ifo s.
Proof.
  assert (Hk : ∀ k c, k ∈ [CRange "A" "Z"; CDigit; CLit ":"] →
            cclass_match k (if Ascii.eqb c "-" then "_"%char else c) = cclass_match k c).
  { intros k c Hk. destruct (Ascii.eqb c "-") eqn:Hc; [|done].
    apply Ascii.eqb_eq in Hc as ->.
    repeat (apply elem_of_cons in Hk as [->|Hk]); try reflexivity.
    by apply elem_of_nil in Hk. }
  unfold _re_ifo.
  destruct s as [|a [|d [|c s]]]; cbn [underscored match_prefix]; try done.
  - by rewrite Hk by repeat constructor.
  - by rewrite !Hk by repeat constructor.
  - by rewrite !Hk by repeat constructor.
Qed.

Lemma split_scan_underscored (s : string) (n i : nat) :
  (i < n)%nat →
  ((split_scan _re_cchar (underscored s) 0 n).1
     :: (split_scan _re_cchar (underscored s) 0 n).2) !! i
  = ((split_scan _re_cchar s 0 n).1 :: (split_scan _re_cchar s 0 n).2) !! i.
Proof.
  unfold _re_cchar. revert n i. induction s as [|c s IH]; intros n i Hi; [done|].
  destruct n as [|n]; [lia|]. cbn [underscored split_scan].
  change (negb (bool_decide ([CSet ["-"%char; "_"%char]] = []))) with true.
  cbn [andb match_prefix]. rewrite !andb_true_r, underscored_char_sep.
  destruct (cclass_match _ c) eqn:Hc.
  - destruct i as [|i]; [done|]. cbn [List.length pred].
    specialize (IH n i ltac:(lia)).
    destruct (split_scan _ (underscored s) 0 n), (split_scan _ s 0 n). exact IH.
  - assert (Ascii.eqb c "-" = false) as ->.
    { apply not_true_is_false. intros ->%Ascii.eqb_eq. discriminate. }
    pose proof (IH (S n) 0%nat ltac:(lia)) as IH0.
    specialize (IH (S n) i).
    destruct (split_scan _ (underscored s) 0 (S n)), (split_scan _ s 0 (S n)).
    destruct i as [|i]; simpl in *; [congruence|]. apply IH. lia.
Qed.

(** X12: the parser does not tell [-] from [_]: a name and the name with
    every [-] turned into [_] give the same components. *)
Theorem parse_ignores_separator_kind (s : string) (h : heap) :
  parse_channel_name (VStr (underscored s)) h = parse_channel_name (VStr s) h.
Proof.
  assert (Hdec : ∀ ifo rem, decompose ifo (underscored rem) = decompose ifo rem).
  { intros ifo rem. unfold decompose, tag, split_tokens.
    pose proof (split_scan_underscored rem 3 0 ltac:(lia)) as E0.
    pose proof (split_scan_underscored rem 3 1 ltac:(lia)) as E1.
    pose proof (split_scan_underscored rem 3 2 ltac:(lia)) as E2.
    destruct (split_scan _ (underscored rem) 0 3), (split_scan _ rem 0 3).
    cbn [fst snd] in *. by rewrite E0, E1, E2. }
  destruct (decide (s = "")) as [->|Hs]; [done|].
  assert (Hs' : underscored s ≠ "") by by destruct s.
  destruct (match_prefix _re_ifo s) eqn:Hm.
  - apply match_ifo in Hm as (a & d & rest & -> & Ha & Hd).
    cbn [underscored].
    assert (∀ c, is_upper c ∨ is_digit c → Ascii.eqb c "-" = false) as Hnd.
    { intros c Hc. apply Ascii.eqb_neq. intros ->. unfold is_upper, is_digit in Hc.
      change (N_of_ascii "-") with 45%N in Hc. lia. }
    rewrite (Hnd a), (Hnd d) by auto. change (Ascii.eqb ":" "-") with false.
    rewrite !parse_with_ifo by done. by rewrite Hdec.
  - rewrite !parse_without_ifo; [by rewrite Hdec|done|done|done|].
    by rewrite underscored_match_ifo.
Qed.

End ParserShape.

(** ** The string views and [fetch] *)

Section Views.
Context `{F : Foreign} `{!Astropy} `{!Nds}.

#[local] Arguments Ascii.eqb : simpl never.

(** X10: whenever [fetch] consults the directory (no host given, or a port
    given) and the directory has no entry for the observatory of the
    [Channel], the call raises [KeyError]; no connection is opened and the
    heap is as before. *)
Theorem fetch_unknown_observatory (self : loc) (start end_ host port ifo : value)
    (h : heap) :
  truthy host = false ∨ truthy port = true →
  attr h self "ifo" = Some ifo →
  DEFAULT_HOSTS ifo = None →
  Channel.fetch self start end_ host port h = (Raise KeyError, h).
Proof.
  intros Hlook Hifo Hdir. unfold Channel.fetch.
  assert (negb (truthy host) || truthy port = true) as ->.
  { destruct Hlook as [->| ->]; [done|apply orb_true_r]. }
  rewrite run_bind, run_bind, (getattr_attr _ _ _ ifo) by done.
  cbv beta iota. by rewrite run_bind, Hdir.
Qed.

(** Escaping one underscore after the other. *)
Lemma escape_cons (c : ascii) (s : string) :
  replace_scan [CLit "_"] "\_" (String c s) 0
  = if Ascii.eqb "_" c then "\_" +:+ replace_scan [CLit "_"] "\_" s 0
    else String c (replace_scan [CLit "_"] "\_" s 0).
Proof.
  cbn [replace_scan]. change (negb (bool_decide ([CLit "_"%char] = []))) with true.
  cbn [andb match_prefix cclass_match]. by rewrite andb_true_r.
Qed.

(** What has been escaped never starts with an underscore. *)
Lemma escape_head (s r : string) :
  replace_scan [CLit "_"] "\_" s 0 ≠ String "_" r.
Proof.
  destruct s as [|c s]; [done|]. rewrite escape_cons.
  destruct (Ascii.eqb "_" c) eqn:Hc; [done|].
  intros [= -> _]. by rewrite Ascii.eqb_refl in Hc.
Qed.

(** Taking the backslashes away again gives the string back. *)
Lemma unescape_escape (s : string) :
  replace_scan [CLit "\"; CLit "_"] "_" (replace_scan [CLit "_"] "\_" s 0) 0 = s.
Proof.
  induction s as [|c s IH]; [done|]. rewrite escape_cons.
  destruct (Ascii.eqb "_" c) eqn:Hc.
  - apply Ascii.eqb_eq in Hc as <-.
    change (replace_scan [CLit "\"; CLit "_"] "_"
              (String "\" (String "_" (replace_scan [CLit "_"] "\_" s 0))) 0
            = String "_" s).
    cbn [replace_scan].
    change (negb (bool_decide ([CLit "\"%char; CLit "_"%char] = []))) with true.
    cbn [andb match_prefix cclass_match List.length pred].
    rewrite !Ascii.eqb_refl. cbn [andb].
    change ("_" +:+ ?x) with (String "_" x). by rewrite IH.
  - cbn [replace_scan].
    change (negb (bool_decide ([CLit "\"%char; CLit "_"%char] = []))) with true.
    cbn [andb match_prefix cclass_match].
    destruct (replace_scan [CLit "_"] "\_" s 0) as [|c' s'] eqn:Es.
    + rewrite andb_false_r. by rewrite IH.
    + destruct (Ascii.eqb "_" c') eqn:Hc'.
      { apply Ascii.eqb_eq in Hc' as <-. by destruct (escape_head s s'). }
      rewrite andb_true_r, andb_false_r. by rewrite IH.
Qed.

(** A string without an underscore is left as it is. *)
Lemma escape_plain (s : string) :
  Forall (λ c, c ≠ "_"%char) (list_ascii_of_string s) →
  replace_scan [CLit "_"] "\_" s 0 = s.
Proof.
  induction s as [|c s IH]; [done|]. simpl list_ascii_of_string.
  intros [Hc Hs]%Forall_cons. rewrite escape_cons.
  assert (Ascii.eqb "_" c = false) as -> by by apply Ascii.eqb_neq.
  by rewrite IH.
Qed.

(** X13: the name of a [Channel] can be read back from its [tex_name]:
    replacing every backslash-underscore by an underscore gives the name, so
    two names with one [tex_name] are equal; a name without an underscore is
    its own [tex_name]. *)
Theorem tex_name_reversible (self : loc) (nm : string) (h : heap) :
  attr h self "_name" = Some (VStr nm) →
  ∃ t, Channel.tex_name self h = (Ok (VStr t), h)
    ∧ str_replace (VStr t) "\_" "_" h = (Ok (VStr nm), h)
    ∧ (Forall (λ c, c ≠ "_"%char) (list_ascii_of_string nm) → t = nm).
Proof.
  intros Hnm. exists (replace_scan [CLit "_"] "\_" nm 0). split; [|split].
  - unfold Channel.tex_name, Channel.str_, Channel.__str__, Channel.name.
    by rewrite run_bind, (getattr_attr _ _ _ (VStr nm)).
  - unfold str_replace. cbn [ret]. change (String.eqb "\_" "") with false.
    cbn [list_ascii_of_string fmap list_fmap]. by rewrite unescape_escape.
  - apply escape_plain.
Qed.

(** X14: in a heap a program can reach, a [Channel] that has a name has a
    string as its name, and [str], [repr] and [tex_name] return on it:
    [str] gives the name and [repr] the name between [Channel("] and
    [")]. *)
Theorem string_views_return (self : loc) (nm : value) (h : heap) :
  reachable h →
  attr h self "_name" = Some nm →
  ∃ s t, nm = VStr s
    ∧ Channel.__str__ self h = (Ok (VStr s), h)
    ∧ Channel.__repr__ self h
      = (Ok (VStr ("Channel(" +:+ dquote +:+ s +:+ dquote +:+ ")")), h)
    ∧ Channel.tex_name self h = (Ok (VStr t), h).
Proof.
  intros Hr Hnm.
  destruct (reachable_name_inv h Hr self nm Hnm) as (s & _ & -> & _).
  exists s, (replace_scan [CLit "_"] "\_" s 0).
  assert (Hstr : Channel.__str__ self h = (Ok (VStr s), h)) by by apply getattr_attr.
  repeat split; [exact Hstr| |].
  - unfold Channel.__repr__. by rewrite run_bind, Hstr.
  - unfold Channel.tex_name, Channel.str_. by rewrite run_bind, Hstr.
Qed.

End Views.

(** ** Reading back what was assigned *)

Section ReadBack.
Context `{F : Foreign} `{!Astropy} `{!Nds}.

(** X15: in a heap a program can reach, the system of a named [Channel] is
    [None] exactly when its name is the empty string, and then the other
    components are [None] too; any other name, the string [None] that [str]
    makes of an absent name included, gives a string as system. *)
Theorem system_absent_iff_name_empty (self : loc) (s : string) (h : heap) :
  reachable h →
  attr h self "_name" = Some (VStr s) →
  (attr h self "system" = Some VNone ↔ s = "")
  ∧ (s = "" →
     attr h self "ifo" = Some VNone ∧ attr h self "subsystem" = Some VNone
     ∧ attr h self "signal" = Some VNone)
  ∧ (s ≠ "" → ∃ sys, attr h self "system" = Some (VStr sys)).
Proof.
  intros Hr Hnm.
  destruct (reachable_name_inv h Hr self _ Hnm)
    as (s' & t & [= <-] & Ht & Hi & Hsy & Hsu & Hsg).
  specialize (Ht h).
  destruct (decide (s = "")) as [->|Hs].
  - rewrite parse_falsy in Ht by done. injection Ht as <-. simpl in *.
    split; [by split|]. split; [done|]. intros Hne. by destruct Hne.
  - destruct (parse_result_shape s h Hs) as (ifo & sys & sub & sig & E & _).
    rewrite E in Ht. injection Ht as <-. simpl in Hsy.
    split; [|split].
    + rewrite Hsy. split; [discriminate|done].
    + done.
    + intros _. by exists sys.
Qed.


(** X17: in a heap a program can reach, assigning to a [Channel] the model
    it has, or the [dtype] it has, returns and changes nothing. *)
Theorem metadata_reassignment_is_identity (self : loc) (h : heap) :
  reachable h →
  (∀ v, attr h self "_model" = Some v → Channel.model_setter self v h = (Ok (), h))
  ∧ (∀ v, attr h self "_dtype" = Some v → Channel.dtype_setter self v h = (Ok (), h)).
Proof.
  intros (_ & _ & Hd & Hm)%reachable_fields_inv. split; intros v Hv.
  - destruct (Hm self v Hv) as [Hf|(s & -> & Hs)].
    + rewrite model_setter_run by auto.
      assert (stored_model v = v) as Hst.
      { destruct v; try done. simpl in Hf. by destruct s. }
      rewrite Hst. by rewrite setattr_id.
    + rewrite model_setter_run by eauto. cbn [stored_model]. rewrite Hs.
      by rewrite setattr_id.
  - specialize (Hd self v Hv). unfold dtype_ok in Hd.
    unfold Channel.dtype_setter. rewrite Hd. cbn [negb].
    rewrite <- (setattr_id self "_dtype" v h Hv) at 2. reflexivity.
Qed.

End ReadBack.

(** ** The model at work on the sample environment *)

Section Concrete.
#[local] Existing Instances Sample.foreign Sample.astropy Sample.nds.

Lemma parse_canonical_name_witness :
  parse_channel_name (VStr "H1:PSL-ISS_PDA") ∅
  = (Ok (VStr "H1", VStr "PSL", VStr "ISS", VStr "PDA"), ∅).
Proof.
  apply (proj1 parse_canonical_name "H"%char "1"%char "-"%char "_"%char "PSL" "ISS" "PDA");
    unfold is_upper, is_digit, is_sep, sep_free; simpl;
    repeat constructor; try lia; auto; intros [?|?]; discriminate.
Defined.

Lemma parse_ifo_prefix_witness :
  parse_channel_name (VStr "L1:LSC-DARM") ∅
  = (Ok (VStr "L1", VStr "LSC", VStr "DARM", VNone), ∅).
Proof.
  apply (proj1 (parse_ifo_prefix "L1:LSC-DARM" ∅ ltac:(discriminate))
           "L"%char "1"%char "LSC-DARM");
    [reflexivity | unfold is_upper | unfold is_digit]; simpl; lia.
Defined.

Lemma parse_channel_name_pure_witness :
  (parse_channel_name (VStr "L1:LSC-DARM") ∅).1
  = (parse_channel_name (VStr "L1:LSC-DARM") {[ 1%positive := ∅ ]}).1
  ∧ (parse_channel_name (VStr "L1:LSC-DARM") ∅).2 = ∅
  ∧ (parse_channel_name (VStr "L1:LSC-DARM") {[ 1%positive := ∅ ]}).2 = {[ 1%positive := ∅ ]}.
Proof.
  apply (proj2 parse_channel_name_pure (VStr "L1:LSC-DARM") (VStr "L1:LSC-DARM")).
  reflexivity.
Defined.

(** C2: four tokens.  The split stops after the third separator, and the text
    behind it is dropped: [signal] is the third token alone. *)
Theorem parse_fourth_token_dropped :
  parse_channel_name (VStr "H1:PSL-ISS_PDA_OUT_DQ") ∅
  = (Ok (VStr "H1", VStr "PSL", VStr "ISS", VStr "PDA"), ∅)
  ∧ split_tokens _re_cchar "PSL-ISS_PDA_OUT_DQ" 3 = ["PSL"; "ISS"; "PDA"; "OUT_DQ"].
Proof. split; reflexivity. Qed.

Lemma components_follow_name_witness :
  ∃ nm t,
    attr (Channel.name_setter 1 (VStr "L1:LSC-DARM") Sample.source).2 1 "_name" = Some nm
    ∧ parse_channel_name nm (Channel.name_setter 1 (VStr "L1:LSC-DARM") Sample.source).2
      = (Ok t, (Channel.name_setter 1 (VStr "L1:LSC-DARM") Sample.source).2)
    ∧ attr (Channel.name_setter 1 (VStr "L1:LSC-DARM") Sample.source).2 1 "ifo" = Some t.1.1.1
    ∧ attr (Channel.name_setter 1 (VStr "L1:LSC-DARM") Sample.source).2 1 "system" = Some t.1.1.2
    ∧ attr (Channel.name_setter 1 (VStr "L1:LSC-DARM") Sample.source).2 1 "subsystem" = Some t.1.2
    ∧ attr (Channel.name_setter 1 (VStr "L1:LSC-DARM") Sample.source).2 1 "signal" = Some t.2.
Proof.
  apply (proj1 components_follow_name 1%positive (VStr "L1:LSC-DARM") Sample.source).
  reflexivity.
Defined.

Lemma constructor_discards_dtype_witness :
  (∃ self, VRef 1 = VRef self
     ∧ attr (Channel.new (VStr "X1:TEST-CHANNEL") VNone VNone (VInt 5) VNone ∅).2
         self "_dtype" = Some Channel.type)
  ∧ (∀ dt', (∀ src, VStr "X1:TEST-CHANNEL" = VRef src → is_Some (attr ∅ src "_dtype")) →
            Channel.new (VStr "X1:TEST-CHANNEL") VNone VNone dt' VNone ∅
            = (Ok (VRef 1),
               (Channel.new (VStr "X1:TEST-CHANNEL") VNone VNone (VInt 5) VNone ∅).2)).
Proof.
  apply (constructor_discards_dtype (VStr "X1:TEST-CHANNEL") VNone VNone (VInt 5) VNone ∅).
  reflexivity.
Defined.

(** C6: the constructor never hands its [dtype] argument to the setter: a
    [dtype] that is no class is accepted, and the setter, which refuses it,
    is called with the builtin [type] instead. *)
Theorem constructor_accepts_bad_dtype :
  (Channel.new (VStr "X1:TEST-CHANNEL") VNone VNone (VInt 5) VNone ∅).1 = Ok (VRef 1)
  ∧ attr (Channel.new (VStr "X1:TEST-CHANNEL") VNone VNone (VInt 5) VNone ∅).2 1 "_dtype"
    = Some (VType "type")
  ∧ (Channel.dtype_setter 1 (VInt 5) Sample.plain).1 = Raise TypeError.
Proof. repeat split; reflexivity. Qed.

(** The copy [Channel(plain, sample_rate=0, model="")] of the plain sample
    takes the sample rate and the model of its source, although the call
    gives both; built from the name, the same [model] is stored as given. *)
Lemma copy_overwrites_given_fields :
  (Channel.new (VRef 1) (VInt 0) VNone VNone (VStr "") Sample.plain).1 = Ok (VRef 2)
  ∧ attr Sample.plain 1 "_model" = Some (VStr "abc")
  ∧ attr (Channel.new (VRef 1) (VInt 0) VNone VNone (VStr "") Sample.plain).2 2 "_model"
    = Some (VStr "abc")
  ∧ attr Sample.plain 1 "_sample_rate" = Some VNone
  ∧ attr (Channel.new (VRef 1) (VInt 0) VNone VNone (VStr "") Sample.plain).2 2
      "_sample_rate" = Some VNone
  ∧ attr (Channel.new (VStr "H1:PSL-ISS_PDA") VNone VNone VNone (VStr "") Sample.plain).2 2
      "_model" = Some (VStr "").
Proof. repeat split; reflexivity. Qed.

(** The copy [Channel(source, unit="s")] of the full sample, run. *)
Example copy_of_sample :
  (Channel.new (VRef 1) VNone (VStr "s") VNone VNone Sample.source).1 = Ok (VRef 2)
  ∧ (attr (Channel.new (VRef 1) VNone (VStr "s") VNone VNone Sample.source).2 2)
      <$> ["_name"; "_sample_rate"; "_unit"; "_dtype"; "_model"]
    = [Some (VStr "H1:PSL-ISS_PDA"); Some (@VQuantity Sample.foreign 16384 "Hz");
       Some (@VUnit Sample.foreign "s"); Some (VType "type"); Some (VStr "abc")].
Proof. split; reflexivity. Qed.

Lemma copy_constructor_merges_witness :
  Channel.new (VRef 1) VNone (VStr "s") VNone VNone Sample.source
  = Channel.new (VStr "H1:PSL-ISS_PDA") (pick VNone (@VQuantity Sample.foreign 16384 "Hz"))
      (pick (VStr "s") (@VUnit Sample.foreign "m")) VNone (pick VNone (VStr "abc")) Sample.source
  ∧ ∀ r h', Channel.new (VRef 1) VNone (VStr "s") VNone VNone Sample.source = (Ok r, h') →
      ∃ self, r = VRef self ∧ self ≠ 1%positive
        ∧ attr h' self "_name" = Some (VStr "H1:PSL-ISS_PDA")
        ∧ (truthy VNone = false →
           truthy (VStr "abc") = false ∨ (∃ s, VStr "abc" = VStr (lower s)) →
           attr h' self "_model" = Some (VStr "abc"))
        ∧ (∀ s, VNone = VStr s → s ≠ "" →
           attr h' self "_model" = Some (VStr (lower s))).
Proof.
  apply (copy_constructor_merges 1%positive VNone (VStr "s") VNone VNone Sample.source
           "H1:PSL-ISS_PDA" (@VQuantity Sample.foreign 16384 "Hz") (@VUnit Sample.foreign "m") (VType "type") (VStr "abc"));
    reflexivity.
Defined.

(** Once the plain sample has [float] as its [dtype], a copy of it still has
    the builtin [type]. *)
Example copy_drops_dtype :
  attr (Channel.dtype_setter 1 (VType "float") Sample.plain).2 1 "_dtype"
  = Some (VType "float")
  ∧ attr (Channel.new (VRef 1) VNone VNone VNone VNone
            (Channel.dtype_setter 1 (VType "float") Sample.plain).2).2 2 "_dtype"
    = Some (VType "type").
Proof. split; reflexivity. Qed.


Lemma fetch_skips_directory_witness :
  Channel.fetch 1 (VInt 0) (VInt 1) (VStr "nds.example.org") VNone Sample.source
  = (conn ← lift (NDSConnection (VStr "nds.example.org") VNone);
     nm ← Channel.name 1;
     lift (connection_fetch conn (VInt 0) (VInt 1) nm)) Sample.source.
Proof.
  apply (fetch_skips_directory 1%positive (VInt 0) (VInt 1) (VStr "nds.example.org") VNone
           Sample.source); reflexivity.
Defined.

Lemma signal_has_no_separator_witness : sep_free "PDA".
Proof.
  apply (signal_has_no_separator "H1:PSL-ISS_PDA_OUT_DQ" "PDA" ∅
           (VStr "H1") (VStr "PSL") (VStr "ISS")).
  reflexivity.
Defined.

Lemma dtype_setter_guard_witness :
  Channel.dtype_setter 1 (VStr "float") Sample.source = (Raise TypeError, Sample.source).
Proof.
  apply (dtype_setter_guard 1%positive (VStr "float") Sample.source). reflexivity.
Defined.

Lemma fetch_resolves_host_witness :
  Channel.fetch 1 (VInt 0) (VInt 1) VNone VNone Sample.source
  = (conn ← lift (NDSConnection (VStr "nds.ligo-wa.caltech.edu")
                    (pick VNone (VInt 31200)));
     nm ← Channel.name 1;
     lift (connection_fetch conn (VInt 0) (VInt 1) nm)) Sample.source.
Proof.
  apply (fetch_resolves_host 1%positive (VInt 0) (VInt 1) VNone VNone (VStr "H1"));
    reflexivity.
Defined.


(** The two sample heaps are heaps a program can reach. *)
Lemma plain_reachable : reachable Sample.plain.
Proof.
  apply rtc_once.
  exists (CNew (VStr "H1:PSL-ISS_PDA") VNone VNone VNone (VStr "ABC")),
         (Ok [VRef 1]).
  reflexivity.
Qed.

Lemma source_reachable : reachable Sample.source.
Proof.
  apply rtc_once.
  exists (CNew (VStr "H1:PSL-ISS_PDA") (VInt 16384) (VStr "m") (VType "float") (VStr "ABC")),
         (Ok [VRef 1]).
  reflexivity.
Qed.

Lemma metadata_shapes_witness :
  (∀ v, attr Sample.source 1 "_sample_rate" = Some v →
        v = VNone ∨ (∃ u, v = VUnit u) ∨ (∃ x, v = VQuantity x Hertz))
  ∧ (∀ v, attr Sample.source 1 "_unit" = Some v → v = VNone ∨ ∃ u, v = VUnit u)
  ∧ (∀ v, attr Sample.source 1 "_dtype" = Some v → ∃ t, v = VType t)
  ∧ (∀ v, attr Sample.source 1 "_model" = Some v →
          truthy v = false ∨ ∃ s, v = VStr s ∧ lower s = s).
Proof.
  apply (metadata_shapes Sample.source 1%positive). apply source_reachable.
Defined.

Lemma failed_call_keeps_heap_witness :
  (exec (CSetModel 1 (VInt 5)) Sample.plain).2 = Sample.plain.
Proof.
  apply (failed_call_keeps_heap (CSetModel 1 (VInt 5)) Sample.plain
           (exec (CSetModel 1 (VInt 5)) Sample.plain).2 AttributeError);
    [apply plain_reachable|discriminate|reflexivity].
Defined.

Lemma construction_keeps_objects_witness :
  attr (Channel.new (VRef 1) VNone VNone VNone (VStr "XYZ") Sample.plain).2 1 "_model"
  = attr Sample.plain 1 "_model".
Proof.
  apply (construction_keeps_objects (VRef 1) VNone VNone VNone (VStr "XYZ") Sample.plain
           (Channel.new (VRef 1) VNone VNone VNone (VStr "XYZ") Sample.plain).2
           (Channel.new (VRef 1) VNone VNone VNone (VStr "XYZ") Sample.plain).1);
    [reflexivity|by eexists].
Defined.

Lemma construct_from_name_witness :
  ∃ t h',
    (∀ h0, parse_channel_name (VStr "X1:TEST-CHANNEL") h0 = (Ok t, h0))
    ∧ Channel.new (VStr "X1:TEST-CHANNEL") VNone VNone VNone VNone ∅
      = (Ok (VRef (fresh (dom (∅ : heap)))), h')
    ∧ attr h' (fresh (dom (∅ : heap))) "_name" = Some (VStr "X1:TEST-CHANNEL")
    ∧ attr h' (fresh (dom (∅ : heap))) "ifo" = Some t.1.1.1
    ∧ attr h' (fresh (dom (∅ : heap))) "system" = Some t.1.1.2
    ∧ attr h' (fresh (dom (∅ : heap))) "subsystem" = Some t.1.2
    ∧ attr h' (fresh (dom (∅ : heap))) "signal" = Some t.2
    ∧ attr h' (fresh (dom (∅ : heap))) "_sample_rate" = Some VNone
    ∧ attr h' (fresh (dom (∅ : heap))) "_unit" = Some VNone
    ∧ attr h' (fresh (dom (∅ : heap))) "_dtype" = Some Channel.type
    ∧ attr h' (fresh (dom (∅ : heap))) "_model" = Some (stored_model VNone).
Proof.
  apply (construct_from_name "X1:TEST-CHANNEL" VNone VNone ∅). by left.
Defined.

Lemma name_reassignment_is_identity_witness :
  Channel.name_setter 1 (VStr "H1:PSL-ISS_PDA") Sample.plain = (Ok (), Sample.plain)
  ∧ Channel.name_setter 1 (VRef 1) Sample.plain = (Ok (), Sample.plain).
Proof.
  apply (name_reassignment_is_identity 1%positive (VStr "H1:PSL-ISS_PDA") Sample.plain);
    [apply plain_reachable|reflexivity].
Defined.

Lemma copy_of_plain_channel_witness :
  ∃ h2, Channel.new (VRef 1) VNone VNone VNone VNone Sample.plain
        = (Ok (VRef (fresh (dom Sample.plain))), h2)
    ∧ VRef 1 ≠ VRef (fresh (dom Sample.plain))
    ∧ ∀ a, a ∈ ["_name"; "ifo"; "system"; "subsystem"; "signal";
                "_sample_rate"; "_unit"; "_dtype"; "_model"] →
           attr h2 (fresh (dom Sample.plain)) a
           = attr Sample.plain (fresh (dom (∅ : heap))) a.
Proof.
  apply (copy_of_plain_channel "H1:PSL-ISS_PDA" VNone VNone (VStr "ABC") ∅ Sample.plain
           (VRef 1)); [by right; eexists|reflexivity].
Defined.

Lemma fetch_unknown_observatory_witness :
  Channel.fetch 1 (VInt 0) (VInt 1) VNone VNone
    (Channel.new (VStr "X1:TEST-CHANNEL") VNone VNone VNone VNone ∅).2
  = (Raise KeyError, (Channel.new (VStr "X1:TEST-CHANNEL") VNone VNone VNone VNone ∅).2).
Proof.
  apply (fetch_unknown_observatory 1%positive (VInt 0) (VInt 1) VNone VNone (VStr "X1"));
    [by left|reflexivity|reflexivity].
Defined.

Lemma parse_result_shape_witness :
  ∃ ifo sys sub sig,
    parse_channel_name (VStr "H1:PSL-ISS_PDA") ∅ = (Ok (ifo, VStr sys, sub, sig), ∅)
    ∧ (ifo = VNone
       ∨ ∃ a d, ifo = VStr (String a (String d "")) ∧ is_upper a ∧ is_digit d)
    ∧ sep_free sys
    ∧ (sub = VNone ∨ ∃ x, sub = VStr x ∧ sep_free x)
    ∧ (sig = VNone ∨ ∃ x, sig = VStr x ∧ sep_free x)
    ∧ (sub = VNone → sig = VNone).
Proof.
  apply (parse_result_shape "H1:PSL-ISS_PDA" ∅). discriminate.
Defined.

Lemma tex_name_reversible_witness :
  ∃ t, Channel.tex_name 1 Sample.plain = (Ok (VStr t), Sample.plain)
    ∧ str_replace (VStr t) "\_" "_" Sample.plain = (Ok (VStr "H1:PSL-ISS_PDA"), Sample.plain)
    ∧ (Forall (λ c, c ≠ "_"%char) (list_ascii_of_string "H1:PSL-ISS_PDA") →
       t = "H1:PSL-ISS_PDA").
Proof.
  apply (tex_name_reversible 1%positive "H1:PSL-ISS_PDA" Sample.plain). reflexivity.
Defined.

Lemma string_views_return_witness :
  ∃ s t, VStr "H1:PSL-ISS_PDA" = VStr s
    ∧ Channel.__str__ 1 Sample.plain = (Ok (VStr s), Sample.plain)
    ∧ Channel.__repr__ 1 Sample.plain
      = (Ok (VStr ("Channel(" +:+ dquote +:+ s +:+ dquote +:+ ")")), Sample.plain)
    ∧ Channel.tex_name 1 Sample.plain = (Ok (VStr t), Sample.plain).
Proof.
  apply (string_views_return 1%positive (VStr "H1:PSL-ISS_PDA") Sample.plain);
    [apply plain_reachable|reflexivity].
Defined.

Lemma system_absent_iff_name_empty_witness :
  (attr Sample.plain 1 "system" = Some VNone ↔ "H1:PSL-ISS_PDA" = "")
  ∧ ("H1:PSL-ISS_PDA" = "" →
     attr Sample.plain 1 "ifo" = Some VNone ∧ attr Sample.plain 1 "subsystem" = Some VNone
     ∧ attr Sample.plain 1 "signal" = Some VNone)
  ∧ ("H1:PSL-ISS_PDA" ≠ "" → ∃ sys, attr Sample.plain 1 "system" = Some (VStr sys)).
Proof.
  apply (system_absent_iff_name_empty 1%positive "H1:PSL-ISS_PDA" Sample.plain);
    [apply plain_reachable|reflexivity].
Defined.


Lemma metadata_reassignment_is_identity_witness :
  (∀ v, attr Sample.plain 1 "_model" = Some v →
        Channel.model_setter 1 v Sample.plain = (Ok (), Sample.plain))
  ∧ (∀ v, attr Sample.plain 1 "_dtype" = Some v →
          Channel.dtype_setter 1 v Sample.plain = (Ok (), Sample.plain)).
Proof.
  apply (metadata_reassignment_is_identity 1%positive Sample.plain).
  apply plain_reachable.
Defined.

(** An absent name becomes the string [None]. *)
Example name_of_None :
  (attr (Channel.new VNone VNone VNone VNone VNone ∅).2 1)
    <$> ["_name"; "ifo"; "system"; "subsystem"; "signal"]
  = [Some (VStr "None"); Some VNone; Some (VStr "None"); Some VNone; Some VNone].
Proof. reflexivity. Qed.

End Concrete.
